(** * netmap: heatmap rendering of a network scan on a Hilbert curve

    A shallow embedding of [netmap.go] (gradient colours, canvas side
    length, address offsets, the rendering loop) and of the host filter of
    the nmap XML reader, followed by the properties of the specification
    that can be settled on it.

    Conventions of the embedding:
    - Go's [int] is the 64-bit signed integer of the gc compiler on 64-bit
      targets; [uint8], [uint16], [uint32] are [Z] reduced modulo their
      width, exactly where the source computes in those types;
    - [float64] is the kernel's binary64 float ([PrimFloat]); every
      operation is rounded on its own;
    - a conversion from [float64] to an integer type truncates toward zero
      when the truncated value fits the target type; otherwise Go leaves
      the result to the implementation, and the embedding takes that
      result from a parameter [impl_conv];
    - a run-time panic (index out of range, integer division by zero) is
      an explicit outcome. *)

From Stdlib Require Import ZArith Floats Uint63 Lia String Bool.
From stdpp Require Import base list gmap.

Open Scope Z_scope.

(** ** Machine integers *)

Definition uint8 (z : Z) : Z := z mod 2 ^ 8.
Definition uint16 (z : Z) : Z := z mod 2 ^ 16.
Definition uint32 (z : Z) : Z := z mod 2 ^ 32.

(** Two's complement reduction to Go's 64-bit [int]. *)
Definition int64 (z : Z) : Z := (z + 2 ^ 63) mod 2 ^ 64 - 2 ^ 63.

Definition MaxUint16 : Z := 65535.

(** ** Outcomes: a value, or a run-time panic *)

Inductive panic : Set :=
| IndexOutOfRange
| DivideByZero.

Inductive exec (A : Type) : Type :=
| Val (a : A)
| Panicked (p : panic).
Arguments Val {A} a.
Arguments Panicked {A} p.

#[global] Instance exec_ret : MRet exec := fun A a => Val a.

#[global] Instance exec_bind : MBind exec := fun A B k m =>
  match m with
  | Val a => k a
  | Panicked p => Panicked p
  end.

Definition panics {A : Type} (m : exec A) : Prop :=
  match m with
  | Panicked _ => True
  | Val _ => False
  end.

(** ** float64 *)

Definition float_of_Z (z : Z) : float :=
  if z <? 0 then PrimFloat.opp (PrimFloat.of_uint63 (Uint63.of_Z (- z)))
  else PrimFloat.of_uint63 (Uint63.of_Z z).

(** The integer part of a finite float, [None] on infinities and NaN. *)
Definition trunc (f : float) : option Z :=
  match Prim2SF f with
  | S754_zero _ => Some 0
  | S754_finite s m e =>
      let a := match e with
               | Z0 => Z.pos m
               | Zpos p => Z.shiftl (Z.pos m) (Z.pos p)
               | Zneg p => Z.shiftr (Z.pos m) (Z.pos p)
               end in
      Some (if s then - a else a)
  | S754_infinity _ | S754_nan => None
  end.

(** [math.Max]: NaN if either argument is NaN, +0 above -0. *)
Definition math_Max (x y : float) : float :=
  if PrimFloat.is_nan x then x
  else if PrimFloat.is_nan y then y
  else if PrimFloat.ltb x y then y
  else if PrimFloat.ltb y x then x
  else if PrimFloat.is_zero x && PrimFloat.is_zero y
       then (if PrimFloat.get_sign x then y else x)
       else x.

(** [math.Ceil]: the least integral float not below [x]; infinities, NaN
    and integral values (zeros included) are returned as they are. *)
Definition math_Ceil (x : float) : float :=
  match trunc x with
  | None => x
  | Some z =>
      if PrimFloat.eqb (float_of_Z z) x then x
      else if PrimFloat.ltb 0 x then float_of_Z (z + 1)
      else if z =? 0 then PrimFloat.opp 0
      else float_of_Z z
  end.

(** [math.Pow(2, y)] for an integral [y]: the exact power of two
    (NaN stands for the arguments the program never passes). *)
Definition math_Pow2 (y : float) : float :=
  match trunc y with
  | Some k => if PrimFloat.eqb (float_of_Z k) y then Z.ldexp 1 k else PrimFloat.nan
  | None => PrimFloat.nan
  end.

Definition math_Sqrt (x : float) : float := PrimFloat.sqrt x.

Section Conversions.

(** The integer an implementation produces when the truncated value
    does not fit the target type. *)
Variable impl_conv : float -> Z.

Definition convert (wrap : Z -> Z) (lo hi : Z) (f : float) : Z :=
  match trunc f with
  | Some z => if (lo <=? z) && (z <=? hi) then z else wrap (impl_conv f)
  | None => wrap (impl_conv f)
  end.

Definition float_to_uint8 : float -> Z := convert uint8 0 255.
Definition float_to_uint16 : float -> Z := convert uint16 0 65535.
Definition float_to_int : float -> Z := convert int64 (- 2 ^ 63) (2 ^ 63 - 1).

End Conversions.

(** What the gc compiler emits on amd64: CVTTSD2SQ, which yields the
    "integer indefinite" value [-2^63] when the operand does not fit 64
    bits; narrower targets keep the low bits. *)
Definition cvttsd2sq (f : float) : Z :=
  match trunc f with
  | Some z => if (- 2 ^ 63 <=? z) && (z <=? 2 ^ 63 - 1) then z else - 2 ^ 63
  | None => - 2 ^ 63
  end.

(** ** image/color and image *)

Record RGBA : Set := mkRGBA { R : Z; G : Z; B : Z; A : Z }.

#[global] Instance RGBA_inhabited : Inhabited RGBA := populate (mkRGBA 0 0 0 0).

(** [colors]: the gradient of the heatmap; the higher the index, the warmer. *)
Definition colors : gmap Z RGBA :=
  <[0 := mkRGBA 0 0 0 255]>       (* black *)
  (<[1 := mkRGBA 0 0 255 255]>     (* blue *)
  (<[2 := mkRGBA 0 255 255 255]>   (* cyan *)
  (<[3 := mkRGBA 0 255 0 255]>     (* green *)
  (<[4 := mkRGBA 255 255 0 255]>   (* yellow *)
  (<[5 := mkRGBA 255 0 0 255]>     (* red *)
  (<[6 := mkRGBA 255 255 255 255]> (* white *)
   ∅)))))).

(** Indexing a Go map yields the zero value for a missing key. *)
Definition colors_at (i : Z) : RGBA := colors !!! i.

Definition len_colors : Z := Z.of_nat (size colors).

Section GetColor.

Variable impl_conv : float -> Z.

(** One channel of the colour returned inside the loop of [getColor]:
    [uint8(float64(prev-curr)*fract + float64(curr))], the difference
    taken in [uint8]. *)
Definition channel (prev curr : Z) (fract : float) : Z :=
  float_to_uint8 impl_conv
    (PrimFloat.add (PrimFloat.mul (float_of_Z (uint8 (prev - curr))) fract)
                   (float_of_Z curr)).

(** The body of the [if lvl < currV] branch for index [i]. *)
Definition blend (i lvl currV : Z) : RGBA :=
  let currC := colors_at i in
  let prevC := colors_at (float_to_int impl_conv (math_Max 0 (float_of_Z (i - 1)))) in
  let diff :=
    uint16 (uint16 (float_to_uint16 impl_conv (math_Max 0 (float_of_Z (i - 1)))
                    * MaxUint16)
            / uint16 len_colors
            - currV) in
  let fract :=
    if negb (diff =? 0)
    then PrimFloat.sub (float_of_Z lvl)
                       (PrimFloat.div (float_of_Z currV) (float_of_Z diff))
    else 0%float in
  mkRGBA (channel (R prevC) (R currC) fract)
         (channel (G prevC) (G currC) fract)
         (channel (B prevC) (B currC) fract)
         (channel (A prevC) (A currC) fract).

(** The loop [for i := 0; i < len(colors); i++]; [fuel] bounds the
    number of iterations left. *)
Fixpoint getColor_loop (fuel : nat) (i lvl : Z) : RGBA :=
  match fuel with
  | O => colors_at (len_colors - 1)
  | S fuel' =>
      if i <? len_colors then
        let currV := uint16 (int64 (i * MaxUint16) `quot` len_colors) in
        if lvl <? currV then blend i lvl currV
        else getColor_loop fuel' (i + 1) lvl
      else colors_at (len_colors - 1)
  end.

(** [getColor] determines the colour of a pixel from its level. *)
Definition getColor (lvl : Z) : RGBA :=
  if lvl <=? 0 then colors_at 0
  else if lvl >=? MaxUint16 then colors_at (len_colors - 1)
  else getColor_loop (size colors) 0 lvl.

End GetColor.

(** The canvas of [image.NewRGBA] for a rectangle with its corner at the
    origin: [Pix] holds one colour per pixel, row after row. *)
Record Canvas : Set := mkCanvas { Width : Z; Height : Z; Pix : list RGBA }.

Definition NewRGBA (w h : Z) : Canvas :=
  mkCanvas w h (replicate (Z.to_nat (w * h)) (mkRGBA 0 0 0 0)).

(** [draw.Draw(canvas, canvas.Bounds(), &image.Uniform{c}, image.ZP, draw.Src)]. *)
Definition fill (c : RGBA) (canvas : Canvas) : Canvas :=
  mkCanvas (Width canvas) (Height canvas) ((fun _ => c) <$> Pix canvas).

(** [SetRGBA] does nothing for a point outside the rectangle. *)
Definition SetRGBA (canvas : Canvas) (x y : Z) (c : RGBA) : Canvas :=
  if (0 <=? x) && (x <? Width canvas) && (0 <=? y) && (y <? Height canvas)
  then mkCanvas (Width canvas) (Height canvas)
                (<[Z.to_nat (y * Width canvas + x) := c]> (Pix canvas))
  else canvas.

Definition RGBAAt (canvas : Canvas) (x y : Z) : option RGBA :=
  if (0 <=? x) && (x <? Width canvas) && (0 <=? y) && (y <? Height canvas)
  then Pix canvas !! Z.to_nat (y * Width canvas + x)
  else None.

(** ** net: addresses and masks as byte slices ([nil] is the empty list) *)

Definition IP : Set := list Z.
Definition IPMask : Set := list Z.

Record IPNet : Set := mkIPNet { IPNet_IP : IP; IPNet_Mask : IPMask }.

(** [To4]: the 4-byte form of an IPv4 address, [nil] when there is none. *)
Definition To4 (ip : IP) : IP :=
  if (length ip =? 4)%nat then ip
  else if (length ip =? 16)%nat
          && forallb (fun b => b =? 0) (take 10 ip)
          && (ip !!! 10%nat =? 255)
          && (ip !!! 11%nat =? 255)
  then take 4 (drop 12 ip)
  else [].

(** The leading one bits of a byte, and what is left once they are
    shifted out ([for v&0x80 != 0 { n++; v <<= 1 }]). *)
Fixpoint leading_ones (fuel : nat) (v n : Z) : Z * Z :=
  match fuel with
  | O => (v, n)
  | S fuel' =>
      if negb (Z.land v 128 =? 0)
      then leading_ones fuel' (uint8 (Z.shiftl v 1)) (n + 1)
      else (v, n)
  end.

(** [simpleMaskLength]: the number of leading ones of a mask made of ones
    followed by zeros, [-1] for any other mask. *)
Fixpoint simpleMaskLength_from (mask : IPMask) (n : Z) : Z :=
  match mask with
  | [] => n
  | v :: rest =>
      if v =? 255 then simpleMaskLength_from rest (n + 8)
      else
        let '(v', n') := leading_ones 8 v n in
        if negb (v' =? 0) then -1
        else if forallb (fun b => b =? 0) rest then n' else -1
  end.

Definition simpleMaskLength (mask : IPMask) : Z := simpleMaskLength_from mask 0.

(** [IPMask.Size]: leading ones and total bits, (0, 0) for a mask that is
    not in canonical form. *)
Definition Mask_Size (m : IPMask) : Z * Z :=
  let ones := simpleMaskLength m in
  if ones =? -1 then (0, 0) else (ones, Z.of_nat (length m) * 8).

(** [net.CIDRMask(ones, 32)]. *)
Definition CIDRMask4 (ones : Z) : IPMask :=
  let m := Z.shiftl (Z.ones ones) (32 - ones) in
  [Z.shiftr m 24 mod 256; Z.shiftr m 16 mod 256; Z.shiftr m 8 mod 256; m mod 256].

(** ** The curve mapper *)

Module hilbert.

Inductive error : Set :=
| UnsupportedSide
| OffsetOutOfRange.

Record Space : Set := mkSpace { N : Z }.

(** Modelled from the spec: the curve mapper is the package
    github.com/google/hilbert, which [renderImage] calls as
    [hilbert.New] and [Map] and which is not under src/. Section 4.2:
    building a mapper needs a side that is a power of two, any other
    side fails. *)
Definition New (n : Z) : Space + error :=
  if n <=? 0 then inr UnsupportedSide
  else if negb (Z.land n (n - 1) =? 0) then inr UnsupportedSide
  else inl (mkSpace n).

(** Modelled from the spec: part of the same absent package; section
    4.2 and the glossary ask for a Hilbert space-filling curve. Rotation
    and reflection of a point of the [n] x [n] square, by the quadrant
    it is about to be placed in. *)
Definition rotate (n x y : Z) (rx ry : bool) : Z * Z :=
  if ry then (x, y)
  else if rx then (n - 1 - y, n - 1 - x)
  else (y, x).

(** Modelled from the spec: part of the same absent package. A point
    of the [i] x [i] square is rotated and moved into the quadrant that
    the two bits [b1 b0] of a base-4 digit name, in the square twice as
    wide. *)
Definition place (i : Z) (b1 b0 : bool) (x y : Z) : Z * Z :=
  let rx := b1 in
  let ry := xorb b1 b0 in
  let '(x', y') := rotate i x y rx ry in
  (if rx then x' + i else x', if ry then y' + i else y').

(** Modelled from the spec: part of the same absent package. The
    Hilbert curve of order log2(side), built from the base-4 digits of
    the offset, the lowest first: each digit names the quadrant of a
    square twice as wide as the one before. *)
Fixpoint walk (fuel : nat) (n i t x y : Z) : Z * Z :=
  match fuel with
  | O => (x, y)
  | S fuel' =>
      if i <? n then
        let '(x', y') := place i (Z.testbit t 1) (Z.testbit t 0) x y in
        walk fuel' n (i * 2) (t / 4) x' y'
      else (x, y)
  end.

(** Modelled from the spec: section 4.2, [locate]: an offset outside
    [0, side * side) fails with [OffsetOutOfRange]; any other offset is
    mapped to its point on the Hilbert curve of order log2(side). *)
Definition Map (s : Space) (t : Z) : (Z * Z) + error :=
  if (t <? 0) || (N s * N s <=? t) then inr OffsetOutOfRange
  else inl (walk (Z.to_nat (Z.log2_up (N s))) (N s) 1 t 0 0).

End hilbert.

(** The side of a curve of order [j]. *)
Definition pow2 (j : nat) : Z := 2 ^ Z.of_nat j.

(** ** scanner: hosts and scan types *)

(** [Host] is a single finding of the nmap scan. *)
Record Host : Set := mkHost {
  Host_IP : IP;
  Host_RTT : Z;
  Host_OpenPorts : list string
}.

Definition ScanType : Set := string.
Definition ScanHostUp : ScanType := "HOSTUP"%string.
Definition ScanDefaultPorts : ScanType := "DEFAULTPORTS"%string.
Definition ScanAllPorts : ScanType := "ALLPORTS"%string.
Definition ScanWebPorts : ScanType := "WEBPORTS"%string.

(** ** netmap.go *)

Inductive error : Set :=
| ErrNotIPv4            (* "the given network is not an IPv4 network" *)
| ErrNotSquare          (* "please choose a network that allows a square image" *)
| ErrHilbert (e : hilbert.error).
                        (* "unable to create hilbert map for given network" *)

(** [IPv4ToInt] calculates the uint32 of an IPv4 address; indexing the
    result of [To4] panics when there are no 4 bytes. *)
Definition IPv4ToInt (ip : IP) : exec Z :=
  match To4 ip with
  | [b0; b1; b2; b3] =>
      Val (uint32 (uint32 (Z.shiftl b0 24) + uint32 (Z.shiftl b1 16)
                   + uint32 (Z.shiftl b2 8) + b3))
  | _ => Panicked IndexOutOfRange
  end.

Section Render.

Variable impl_conv : float -> Z.

(** [getLength] calculates the side length of the square image for a
    network; as in Go the value comes with an optional error. *)
Definition getLength (n : IPNet) : Z * option error :=
  let '(ones, bits) := Mask_Size (IPNet_Mask n) in
  if negb (bits =? 32) then (0, Some ErrNotIPv4)
  else
    let l := math_Sqrt (math_Pow2 (float_of_Z (bits - ones))) in
    if negb (PrimFloat.eqb l (math_Ceil l)) then (0, Some ErrNotSquare)
    else (float_to_int impl_conv l, None).

(** The metric of a host under a scan type: the RTT for host discovery,
    the number of open ports otherwise. *)
Definition metric (st : ScanType) (h : Host) : Z :=
  if String.eqb st ScanHostUp then Host_RTT h
  else Z.of_nat (length (Host_OpenPorts h)).

(** The first pair of loops of [renderImage]: [max] starts at 0 and is
    raised by every host whose metric exceeds it. *)
Definition maxMetric (st : ScanType) (hosts : list Host) : Z :=
  fold_left (fun max h => if metric st h >? max then metric st h else max)
            hosts 0.

(** [uint16(metric * int(math.MaxUint16) / max)]; the integer division
    panics for a zero divisor. *)
Definition level (st : ScanType) (max : Z) (h : Host) : exec Z :=
  if max =? 0 then Panicked DivideByZero
  else Val (uint16 (int64 (int64 (metric st h * MaxUint16) `quot` max))).

(** One iteration of the painting loop. *)
Definition paintHost (hil : hilbert.Space) (startIP : Z) (st : ScanType)
    (max : Z) (canvas : Canvas) (h : Host) : exec Canvas :=
  a ← IPv4ToInt (Host_IP h);
  let t := uint32 (a - startIP) in
  match hilbert.Map hil t with
  | inr _ => Val canvas
  | inl (x, y) =>
      lvl ← level st max h;
      Val (SetRGBA canvas x y (getColor impl_conv lvl))
  end.

(** The painting loop [for _, h := range hosts]. *)
Fixpoint paint (hil : hilbert.Space) (startIP : Z) (st : ScanType)
    (max : Z) (hosts : list Host) (canvas : Canvas) : exec Canvas :=
  match hosts with
  | [] => Val canvas
  | h :: rest =>
      canvas' ← paintHost hil startIP st max canvas h;
      paint hil startIP st max rest canvas'
  end.

(** [renderImage] renders an image for a network with a list of hosts:
    the canvas or an error, unless it panics. *)
Definition renderImage (n : IPNet) (t : bool) (st : ScanType)
    (hosts : list Host) : exec (Canvas + error) :=
  let '(l, _) := getLength n in
  let canvas := NewRGBA l l in
  let canvas := if negb t then fill (colors_at 0) canvas else canvas in
  match hilbert.New l with
  | inr err => Val (inr (ErrHilbert err))
  | inl hil =>
      startIP ← IPv4ToInt (IPNet_IP n);
      let max := maxMetric st hosts in
      canvas' ← paint hil startIP st max hosts canvas;
      Val (inl canvas')
  end.

End Render.

(** ** scanner: from the decoded nmap XML to hosts *)

Record xnAddr : Set := mkAddr { Addr : string; AddrType : string }.
Record xnTimes : Set := mkTimes { RTT : string }.
Record xnState : Set := mkState { State : string }.
Record xnPort : Set := mkPort { Proto : string; Id : string; PortState : list xnState }.
Record xnPorts : Set := mkPorts { Port : list xnPort }.
Record xnHost : Set := mkXnHost {
  Addrs : list xnAddr;
  Times : list xnTimes;
  Ports : list xnPorts
}.
Record xnDoc : Set := mkDoc { Hosts : list xnHost }.

Section ParseXml.

(** [net.ParseIP], [strconv.Atoi] ([None] for an error) and the text
    [IP.String] prints for an address that is not empty. *)
Variable ParseIP : string -> IP.
Variable Atoi : string -> option Z.
Variable IP_text : IP -> string.

(** [IP.String]: an address of length 0 prints as "<nil>". *)
Definition IP_String (ip : IP) : string :=
  if (length ip =? 0)%nat then "<nil>"%string else IP_text ip.

Definition hostIP (addrs : list xnAddr) : IP :=
  fold_left (fun ip xa => if String.eqb (AddrType xa) "ipv4" then ParseIP (Addr xa) else ip)
            addrs [].

Definition hostRTT (times : list xnTimes) : Z :=
  fold_left (fun rtt xt => match Atoi (RTT xt) with Some i => i | None => rtt end)
            times 0.

(** [xp.State[0]] panics for a port without a state element. *)
Definition addPort (open : list string) (xp : xnPort) : exec (list string) :=
  match PortState xp with
  | [] => Panicked IndexOutOfRange
  | st0 :: _ =>
      if String.eqb (State st0) "open"
      then Val (open ++ [(Proto xp ++ "/" ++ Id xp)%string])
      else Val open
  end.

Fixpoint addPorts (open : list string) (xps : list xnPort) : exec (list string) :=
  match xps with
  | [] => Val open
  | xp :: rest => open' ← addPort open xp; addPorts open' rest
  end.

Fixpoint hostPorts (open : list string) (xpss : list xnPorts) : exec (list string) :=
  match xpss with
  | [] => Val open
  | xps :: rest => open' ← addPorts open (Port xps); hostPorts open' rest
  end.

(** The body of the loop over the hosts of the document. *)
Definition parseHost (hosts : list Host) (xh : xnHost) : exec (list Host) :=
  open ← hostPorts [] (Ports xh);
  let h := mkHost (hostIP (Addrs xh)) (hostRTT (Times xh)) open in
  if negb (String.eqb (IP_String (Host_IP h)) "")
  then Val (hosts ++ [h])
  else Val hosts.

Fixpoint parseHosts (hosts : list Host) (xhs : list xnHost) : exec (list Host) :=
  match xhs with
  | [] => Val hosts
  | xh :: rest => hosts' ← parseHost hosts xh; parseHosts hosts' rest
  end.

(** [parseXml], from the decoded document on. *)
Definition parseXml (doc : xnDoc) : exec (list Host) :=
  parseHosts [] (Hosts doc).

End ParseXml.

(** ** The gradient as the specification words it *)

(** Section 4.3, for comparison with [getColor]: stop [i] is centred at
    [i * MAXVALUE / N]; a level between the centres of stops [i-1] and [i]
    gets, in every channel, the value interpolated linearly between the
    two stops by the fractional position of the level between the two
    centres, rounded to the nearest 8-bit value. *)
Definition stop_center (i : Z) : Z := i * MaxUint16 / len_colors.

Definition lerp (prev curr lvl lo hi : Z) : Z :=
  (2 * (prev * (hi - lo) + (curr - prev) * (lvl - lo)) + (hi - lo)) / (2 * (hi - lo)).

Definition lerpRGBA (p c : RGBA) (lvl lo hi : Z) : RGBA :=
  mkRGBA (lerp (R p) (R c) lvl lo hi) (lerp (G p) (G c) lvl lo hi)
         (lerp (B p) (B c) lvl lo hi) (lerp (A p) (A c) lvl lo hi).

Fixpoint colorAt_spec_loop (fuel : nat) (i lvl : Z) : RGBA :=
  match fuel with
  | O => colors_at (len_colors - 1)
  | S fuel' =>
      if lvl <? stop_center i
      then lerpRGBA (colors_at (i - 1)) (colors_at i) lvl
                    (stop_center (i - 1)) (stop_center i)
      else colorAt_spec_loop fuel' (i + 1) lvl
  end.

Definition colorAt_spec (lvl : Z) : RGBA :=
  if lvl <=? 0 then colors_at 0
  else if lvl >=? MaxUint16 then colors_at (len_colors - 1)
  else colorAt_spec_loop (Nat.pred (size colors)) 1 lvl.

(** ** Auxiliary definitions for the properties *)

(** The float that [getColor] converts to the alpha channel inside its
    loop, for index [i], as a function of [float64(lvl)]: the fourth
    argument of [color.RGBA{...}]. What does not depend on the level
    comes first. *)
Definition alpha_float (impl_conv : float -> Z) (i currV : Z) : float -> float :=
  let currC := colors_at i in
  let prevC := colors_at (float_to_int impl_conv (math_Max 0 (float_of_Z (i - 1)))) in
  let diff :=
    uint16 (uint16 (float_to_uint16 impl_conv (math_Max 0 (float_of_Z (i - 1)))
                    * MaxUint16)
            / uint16 len_colors
            - currV) in
  let nonzero := negb (diff =? 0) in
  let q := PrimFloat.div (float_of_Z currV) (float_of_Z diff) in
  let d := float_of_Z (uint8 (A prevC - A currC)) in
  let a := float_of_Z (A currC) in
  fun lf =>
    PrimFloat.add (PrimFloat.mul d (if nonzero then PrimFloat.sub lf q else 0%float)) a.

(** [f] gives exactly 255 on the floats of [n] consecutive levels from
    [lvl] on. *)
Fixpoint all_255_from (f : float -> float) (n : nat) (lvl : Z) : bool :=
  match n with
  | O => true
  | S n' => PrimFloat.Leibniz.eqb (f (float_of_Z lvl)) 255%float
            && all_255_from f n' (lvl + 1)
  end.

(** A checker that follows the loop of [getColor]: for every index the
    loop can stop at, the alpha float is 255 on the levels 1 to 65534. *)
Fixpoint alpha_ok (impl_conv : float -> Z) (fuel : nat) (i : Z) : bool :=
  match fuel with
  | O => true
  | S fuel' =>
      if i <? len_colors then
        let currV := uint16 (int64 (i * MaxUint16) `quot` len_colors) in
        all_255_from (alpha_float impl_conv i currV) (Z.to_nat 65534) 1
        && alpha_ok impl_conv fuel' (i + 1)
      else true
  end.

(** The colour channels are bytes. *)
Definition byte_channels (c : RGBA) : Prop :=
  0 <= R c <= 255 /\ 0 <= G c <= 255 /\ 0 <= B c <= 255.

(** A canvas of side [l]: [l] columns, [l] rows, [l * l] pixels. *)
Definition square (l : Z) (canvas : Canvas) : Prop :=
  Width canvas = l /\ Height canvas = l
  /\ length (Pix canvas) = Z.to_nat (l * l).

(** The canvas [renderImage] has before it paints the hosts. *)
Definition startCanvas (t : bool) (l : Z) : Canvas :=
  if negb t then fill (colors_at 0) (NewRGBA l l) else NewRGBA l l.

(** The values [IPv4ToInt] gives for the addresses of the hosts. *)
Definition addresses (hosts : list Host) : list (exec Z) :=
  (fun h => IPv4ToInt (Host_IP h)) <$> hosts.

(** The host has an address that the curve maps to the pixel (x, y). *)
Definition mappedAt (hil : hilbert.Space) (s x y : Z) (h : Host) : Prop :=
  exists a, IPv4ToInt (Host_IP h) = Val a
            /\ hilbert.Map hil (uint32 (a - s)) = inl (x, y).

(** The host has an address that the curve maps to some pixel. *)
Definition mappable (hil : hilbert.Space) (s : Z) (h : Host) : Prop :=
  exists a xy, IPv4ToInt (Host_IP h) = Val a
               /\ hilbert.Map hil (uint32 (a - s)) = inl xy.

(** The background [renderImage] starts from. *)
Definition background (t : bool) : RGBA :=
  if t then mkRGBA 0 0 0 0 else colors_at 0.

(** A port counts as open when its first state element says "open". *)
Definition isOpen (xp : xnPort) : bool :=
  match PortState xp with
  | [] => false
  | st0 :: _ => String.eqb (State st0) "open"
  end.

Definition portName (xp : xnPort) : string :=
  (Proto xp ++ "/" ++ Id xp)%string.

(** The open ports of a host element, in document order. *)
Definition openPorts (xh : xnHost) : list string :=
  List.map portName (List.filter isOpen (List.flat_map Port (Ports xh))).

(** The level of stop [i] as the loop of [getColor] computes it:
    [uint16(i * math.MaxUint16 / len(colors))]. *)
Definition stopLevel (i : Z) : Z :=
  uint16 (int64 (i * MaxUint16) `quot` len_colors).

(** The float that [getColor] converts to the channel [sel] inside its
    loop, for index [i], as a function of [float64(lvl)]. What does not
    depend on the level comes first. *)
Definition channel_float (impl_conv : float -> Z) (sel : RGBA -> Z) (i currV : Z)
    : float -> float :=
  let currC := colors_at i in
  let prevC := colors_at (float_to_int impl_conv (math_Max 0 (float_of_Z (i - 1)))) in
  let diff :=
    uint16 (uint16 (float_to_uint16 impl_conv (math_Max 0 (float_of_Z (i - 1)))
                    * MaxUint16)
            / uint16 len_colors
            - currV) in
  let nonzero := negb (diff =? 0) in
  let q := PrimFloat.div (float_of_Z currV) (float_of_Z diff) in
  let d := float_of_Z (uint8 (sel prevC - sel currC)) in
  let a := float_of_Z (sel currC) in
  fun lf =>
    PrimFloat.add (PrimFloat.mul d (if nonzero then PrimFloat.sub lf q else 0%float)) a.

(** [f] gives exactly [target] on the floats of [n] consecutive levels
    from [lvl] on. *)
Fixpoint all_eq_from (f : float -> float) (target : float) (n : nat) (lvl : Z) : bool :=
  match n with
  | O => true
  | S n' => PrimFloat.Leibniz.eqb (f (float_of_Z lvl)) target
            && all_eq_from f target n' (lvl + 1)
  end.

(** [v] lies between [p] and [c], whichever is larger. *)
Definition between (p c v : Z) : Prop := Z.min p c <= v <= Z.max p c.

(** Every channel of [x] lies between that channel of [p] and of [c]. *)
Definition within (p c x : RGBA) : Prop :=
  between (R p) (R c) (R x) /\ between (G p) (G c) (G x)
  /\ between (B p) (B c) (B x) /\ between (A p) (A c) (A x).

(** A checker for one channel of the colour computed at index [i]: where
    stops [i-1] and [i] agree on the channel, the float converted is
    exactly that value on the levels 1 to 65534 and converts to it;
    where they differ, one has 0 and the other 255. *)
Definition sel_ok (impl_conv : float -> Z) (sel : RGBA -> Z) (i : Z) : bool :=
  let p := sel (colors_at (Z.max 0 (i - 1))) in
  let c := sel (colors_at i) in
  if p =? c
  then (float_to_uint8 impl_conv (float_of_Z c) =? c)
       && all_eq_from (channel_float impl_conv sel i (stopLevel i)) (float_of_Z c)
                      (Z.to_nat 65534) 1
  else (Z.min p c =? 0) && (Z.max p c =? 255).

(** The checker along the loop of [getColor]. *)
Fixpoint stops_ok (impl_conv : float -> Z) (fuel : nat) (i : Z) : bool :=
  match fuel with
  | O => true
  | S fuel' =>
      if i <? len_colors then
        sel_ok impl_conv R i && sel_ok impl_conv G i
        && sel_ok impl_conv B i && sel_ok impl_conv A i
        && stops_ok impl_conv fuel' (i + 1)
      else true
  end.

(** ** The colour table as a Go map

    A Go map has no order of its own: a run may lay the entries of
    [colors] out in any order. [layout] is the table as one run holds
    it, and the definitions below are [getColor] and [renderImage] read
    against it: [colors[i]] finds the entry with key [i] (the zero
    colour when there is none), [len(colors)] counts the entries. *)

Definition validLayout (layout : list (Z * RGBA)) : Prop :=
  layout ≡ₚ map_to_list colors.

Section Layout.

Variable layout : list (Z * RGBA).
Variable impl_conv : float -> Z.

Definition colors_atL (i : Z) : RGBA :=
  match List.find (fun e => fst e =? i) layout with
  | Some e => snd e
  | None => mkRGBA 0 0 0 0
  end.

Definition len_colorsL : Z := Z.of_nat (length layout).

Definition blendL (i lvl currV : Z) : RGBA :=
  let currC := colors_atL i in
  let prevC := colors_atL (float_to_int impl_conv (math_Max 0 (float_of_Z (i - 1)))) in
  let diff :=
    uint16 (uint16 (float_to_uint16 impl_conv (math_Max 0 (float_of_Z (i - 1)))
                    * MaxUint16)
            / uint16 len_colorsL
            - currV) in
  let fract :=
    if negb (diff =? 0)
    then PrimFloat.sub (float_of_Z lvl)
                       (PrimFloat.div (float_of_Z currV) (float_of_Z diff))
    else 0%float in
  mkRGBA (channel impl_conv (R prevC) (R currC) fract)
         (channel impl_conv (G prevC) (G currC) fract)
         (channel impl_conv (B prevC) (B currC) fract)
         (channel impl_conv (A prevC) (A currC) fract).

Fixpoint getColor_loopL (fuel : nat) (i lvl : Z) : RGBA :=
  match fuel with
  | O => colors_atL (len_colorsL - 1)
  | S fuel' =>
      if i <? len_colorsL then
        let currV := uint16 (int64 (i * MaxUint16) `quot` len_colorsL) in
        if lvl <? currV then blendL i lvl currV
        else getColor_loopL fuel' (i + 1) lvl
      else colors_atL (len_colorsL - 1)
  end.

Definition getColorL (lvl : Z) : RGBA :=
  if lvl <=? 0 then colors_atL 0
  else if lvl >=? MaxUint16 then colors_atL (len_colorsL - 1)
  else getColor_loopL (length layout) 0 lvl.

Definition paintHostL (hil : hilbert.Space) (startIP : Z) (st : ScanType)
    (max : Z) (canvas : Canvas) (h : Host) : exec Canvas :=
  a ← IPv4ToInt (Host_IP h);
  let t := uint32 (a - startIP) in
  match hilbert.Map hil t with
  | inr _ => Val canvas
  | inl (x, y) =>
      lvl ← level st max h;
      Val (SetRGBA canvas x y (getColorL lvl))
  end.

Fixpoint paintL (hil : hilbert.Space) (startIP : Z) (st : ScanType)
    (max : Z) (hosts : list Host) (canvas : Canvas) : exec Canvas :=
  match hosts with
  | [] => Val canvas
  | h :: rest =>
      canvas' ← paintHostL hil startIP st max canvas h;
      paintL hil startIP st max rest canvas'
  end.

Definition renderImageL (n : IPNet) (t : bool) (st : ScanType)
    (hosts : list Host) : exec (Canvas + error) :=
  let '(l, _) := getLength impl_conv n in
  let canvas := NewRGBA l l in
  let canvas := if negb t then fill (colors_atL 0) canvas else canvas in
  match hilbert.New l with
  | inr err => Val (inr (ErrHilbert err))
  | inl hil =>
      startIP ← IPv4ToInt (IPNet_IP n);
      let max := maxMetric st hosts in
      canvas' ← paintL hil startIP st max hosts canvas;
      Val (inl canvas')
  end.

End Layout.

(** * Properties *)

(** ** The gradient *)

Lemma colors_at_first : colors_at 0 = mkRGBA 0 0 0 255.
Proof. reflexivity. Qed.

Lemma colors_at_last : colors_at (len_colors - 1) = mkRGBA 255 255 255 255.
Proof. reflexivity. Qed.

Lemma getColor_low (cv : float -> Z) (lvl : Z) :
  lvl <= 0 -> getColor cv lvl = colors_at 0.
Proof.
  intros Hl. unfold getColor.
  destruct (Z.leb_spec lvl 0); [reflexivity | lia].
Qed.

Lemma getColor_high (cv : float -> Z) (lvl : Z) :
  MaxUint16 <= lvl -> getColor cv lvl = colors_at (len_colors - 1).
Proof.
  intros Hl. unfold getColor, MaxUint16 in *.
  destruct (Z.leb_spec lvl 0); [lia |].
  destruct (Z.geb_spec lvl 65535); [reflexivity | lia].
Qed.

(** The level of a host whose metric is the maximum, when that maximum is
    positive and its product with 65535 fits Go's [int]. *)
Lemma level_of_max (st : ScanType) (max : Z) (h : Host) :
  metric st h = max -> 0 < max -> max * MaxUint16 < 2 ^ 63 ->
  level st max h = Val MaxUint16.
Proof.
  intros Hm Hpos Hfit. unfold level. rewrite Hm.
  destruct (Z.eqb_spec max 0) as [|_]; [lia |].
  unfold MaxUint16 in *.
  assert (E1 : int64 (max * 65535) = max * 65535).
  { unfold int64. rewrite Z.mod_small; lia. }
  rewrite E1, (Z.mul_comm max), Z.quot_mul by lia.
  reflexivity.
Qed.

(** C1. The source means to interpolate between the previous and the next
    stop, but does not: at level 1 [getColor] returns plain blue, whatever
    the implementation, where the interpolation of the specification
    between black (centre 0) and blue (centre 9362) gives black; and for
    metric 10 under maximum 40 (level 16383) the green channel is
    converted from 16637.67, which does not fit [uint8] (253 with the
    amd64 conversion) where the interpolation gives 191. *)
Theorem C1_getColor_does_not_interpolate :
  (forall cv, getColor cv 1 = mkRGBA 0 0 255 255)
  /\ colorAt_spec 1 = mkRGBA 0 0 0 255
  /\ level ScanHostUp 40 (mkHost [10; 0; 0; 1] 10 []) = Val 16383
  /\ (forall cv, getColor cv 16383
                 = mkRGBA 0 (uint8 (cv (16383 - 18724 / 56174 + 255)%float)) 255 255)
  /\ getColor cvttsd2sq 16383 = mkRGBA 0 253 255 255
  /\ colorAt_spec 16383 = mkRGBA 0 191 255 255.
Proof.
  repeat split; intros; vm_compute; reflexivity.
Qed.

(** ** The side length *)

(** Case analysis on a positive prefix length that is at most 32. *)
Ltac prefix_cases p := do 6 (try (destruct p as [p|p|]; try lia)).

Lemma Mask_Size_CIDRMask4 (p : Z) :
  0 <= p <= 32 -> Mask_Size (CIDRMask4 p) = (p, 32).
Proof.
  intros Hp.
  destruct p as [|p|p]; [reflexivity | | lia].
  prefix_cases p; vm_compute; reflexivity.
Qed.

Lemma getLength_error (cv : float -> Z) (n : IPNet) (e : error) :
  snd (getLength cv n) = Some e -> fst (getLength cv n) = 0.
Proof.
  unfold getLength.
  destruct (Mask_Size (IPNet_Mask n)) as [ones bits].
  destruct (negb (bits =? 32)); [reflexivity |].
  destruct (negb _); [reflexivity | discriminate].
Qed.

(** C4. On a 32-bit mask with [p] leading ones, [getLength] returns a
    side whose square is 2^(32-p) when 32-p is even and fails (side 0,
    error) when 32-p is odd; a mask whose size is not 32 bits fails. *)
Theorem C4_getLength_square (cv : float -> Z) (n : IPNet) (p bits : Z) :
  Mask_Size (IPNet_Mask n) = (p, bits) ->
  (bits <> 32 -> getLength cv n = (0, Some ErrNotIPv4))
  /\ (bits = 32 -> 0 <= p <= 32 -> Z.even (32 - p) = true ->
      exists side, getLength cv n = (side, None) /\ side * side = 2 ^ (32 - p))
  /\ (bits = 32 -> 0 <= p <= 32 -> Z.odd (32 - p) = true ->
      getLength cv n = (0, Some ErrNotSquare)).
Proof.
  intros HM. unfold getLength. rewrite HM.
  split; [| split].
  - intros Hb. destruct (Z.eqb_spec bits 32); [contradiction | reflexivity].
  - intros -> Hp Hev.
    destruct p as [|p|p]; [eexists; split; vm_compute; reflexivity | | lia].
    prefix_cases p;
      try discriminate Hev;
      eexists; split; vm_compute; reflexivity.
  - intros -> Hp Hodd.
    destruct p as [|p|p]; [discriminate Hodd | | lia].
    prefix_cases p;
      try discriminate Hodd;
      vm_compute; reflexivity.
Qed.

Lemma C4_getLength_square_witness :
  (exists side, getLength cvttsd2sq (mkIPNet [10; 0; 0; 0] (CIDRMask4 24)) = (side, None)
                /\ side * side = 2 ^ (32 - 24))
  /\ getLength cvttsd2sq (mkIPNet [10; 0; 0; 0] (CIDRMask4 23)) = (0, Some ErrNotSquare)
  /\ getLength cvttsd2sq (mkIPNet [0; 0; 0; 0; 0; 0; 0; 0; 0; 0; 0; 0; 0; 0; 0; 1]
                                  [255; 255; 255; 255; 255; 255; 255; 255;
                                   0; 0; 0; 0; 0; 0; 0; 0])
     = (0, Some ErrNotIPv4).
Proof.
  split; [| split].
  - apply (proj1 (proj2 (C4_getLength_square cvttsd2sq
             (mkIPNet [10; 0; 0; 0] (CIDRMask4 24)) 24 32 eq_refl)));
      [reflexivity | lia | reflexivity].
  - apply (proj2 (proj2 (C4_getLength_square cvttsd2sq
             (mkIPNet [10; 0; 0; 0] (CIDRMask4 23)) 23 32 eq_refl)));
      [reflexivity | lia | reflexivity].
  - apply (proj1 (C4_getLength_square cvttsd2sq
             (mkIPNet [0; 0; 0; 0; 0; 0; 0; 0; 0; 0; 0; 0; 0; 0; 0; 1]
                      [255; 255; 255; 255; 255; 255; 255; 255;
                       0; 0; 0; 0; 0; 0; 0; 0]) 64 128 eq_refl)).
    lia.
Defined.

(** ** Addresses *)

Lemma To4_cases (ip : IP) : To4 ip = [] \/ length (To4 ip) = 4%nat.
Proof.
  unfold To4.
  destruct (Nat.eqb_spec (length ip) 4) as [E4 | _]; [right; exact E4 |].
  destruct (Nat.eqb_spec (length ip) 16) as [E16 | _]; simpl; [| left; reflexivity].
  destruct (_ && _); [| left; reflexivity].
  right. rewrite length_take, length_drop, E16. reflexivity.
Qed.

Lemma IPv4ToInt_nil (ip : IP) :
  To4 ip = [] -> IPv4ToInt ip = Panicked IndexOutOfRange.
Proof. intros E. unfold IPv4ToInt. rewrite E. reflexivity. Qed.

Lemma IPv4ToInt_Val (ip : IP) :
  To4 ip <> [] -> exists a, IPv4ToInt ip = Val a /\ 0 <= a < 2 ^ 32.
Proof.
  intros Hne. unfold IPv4ToInt.
  destruct (To4_cases ip) as [E | E]; [contradiction |].
  destruct (To4 ip) as [|b0 [|b1 [|b2 [|b3 [|? ?]]]]]; try discriminate E.
  eexists. split; [reflexivity |].
  unfold uint32. apply Z.mod_pos_bound. lia.
Qed.

(** ** Rendering *)

Lemma paint_app (cv : float -> Z) hil startIP st max (hs1 hs2 : list Host) canvas :
  paint cv hil startIP st max (hs1 ++ hs2) canvas
  = canvas' ← paint cv hil startIP st max hs1 canvas;
    paint cv hil startIP st max hs2 canvas'.
Proof.
  revert canvas. induction hs1 as [|h hs1 IH]; intros canvas; simpl.
  - reflexivity.
  - destruct (paintHost cv hil startIP st max canvas h) as [c|p]; simpl.
    + apply IH.
    + reflexivity.
Qed.

Lemma New_Some (l : Z) (hil : hilbert.Space) :
  hilbert.New l = inl hil -> hilbert.N hil = l /\ 0 < l.
Proof.
  unfold hilbert.New.
  destruct (Z.leb_spec l 0); [discriminate |].
  destruct (negb _); [discriminate |].
  intros [= <-]. split; [reflexivity | assumption].
Qed.

Lemma Map_out_of_range (hil : hilbert.Space) (t : Z) :
  hilbert.N hil * hilbert.N hil <= t ->
  hilbert.Map hil t = inr hilbert.OffsetOutOfRange.
Proof.
  intros Ht. unfold hilbert.Map.
  destruct (Z.leb_spec (hilbert.N hil * hilbert.N hil) t); [| lia].
  rewrite orb_true_r. reflexivity.
Qed.

(** C3. The error of [getLength] never leaves [renderImage]: the call
    keeps the side 0 that comes with it and drops the error, the canvas
    of side 0 is built, and the render fails only because no curve can be
    built for side 0, with the curve mapper's error. *)
Theorem C3_getLength_error_dropped (cv : float -> Z) (n : IPNet) (t : bool)
    (st : ScanType) (hosts : list Host) (e : error) :
  snd (getLength cv n) = Some e ->
  renderImage cv n t st hosts = Val (inr (ErrHilbert hilbert.UnsupportedSide))
  /\ e <> ErrHilbert hilbert.UnsupportedSide.
Proof.
  intros He. split.
  - pose proof (getLength_error cv n e He) as H0.
    unfold renderImage.
    destruct (getLength cv n) as [l e']. simpl in H0. subst l.
    reflexivity.
  - intros ->. unfold getLength in He.
    destruct (Mask_Size (IPNet_Mask n)) as [ones bits].
    destruct (negb (bits =? 32)); [discriminate |].
    destruct (negb _); discriminate.
Qed.

Lemma C3_getLength_error_dropped_witness :
  renderImage cvttsd2sq (mkIPNet [10; 0; 0; 0] [255; 255; 254; 0]) false ScanHostUp []
  = Val (inr (ErrHilbert hilbert.UnsupportedSide))
  /\ ErrNotSquare <> ErrHilbert hilbert.UnsupportedSide.
Proof.
  apply (C3_getLength_error_dropped cvttsd2sq
           (mkIPNet [10; 0; 0; 0] [255; 255; 254; 0]) false ScanHostUp []
           ErrNotSquare).
  vm_compute. reflexivity.
Defined.

(** C7. A /24 network with no host renders to a 16 x 16 canvas: every
    pixel opaque black (the coldest colour) when the image is not
    transparent, every pixel zero (alpha 0) when it is. *)
Theorem C7_empty_slash24 (cv : float -> Z) (n : IPNet) (st : ScanType) :
  IPNet_Mask n = [255; 255; 255; 0] -> To4 (IPNet_IP n) <> [] ->
  exists blank clear,
    renderImage cv n false st [] = Val (inl blank)
    /\ renderImage cv n true st [] = Val (inl clear)
    /\ Width blank = 16 /\ Height blank = 16
    /\ Width clear = 16 /\ Height clear = 16
    /\ (forall x y, 0 <= x < 16 -> 0 <= y < 16 ->
          RGBAAt blank x y = Some (colors_at 0)
          /\ colors_at 0 = mkRGBA 0 0 0 255
          /\ RGBAAt clear x y = Some (mkRGBA 0 0 0 0)).
Proof.
  intros HM HIP.
  destruct (IPv4ToInt_Val _ HIP) as (a & Ea & _).
  assert (EL : getLength cv n = (16, None)).
  { unfold getLength. rewrite HM. vm_compute. reflexivity. }
  exists (mkCanvas 16 16 (replicate 256 (mkRGBA 0 0 0 255))),
         (mkCanvas 16 16 (replicate 256 (mkRGBA 0 0 0 0))).
  split; [| split].
  - unfold renderImage. rewrite EL.
    change (hilbert.New 16) with (@inl _ hilbert.error (hilbert.mkSpace 16)).
    rewrite Ea. reflexivity.
  - unfold renderImage. rewrite EL.
    change (hilbert.New 16) with (@inl _ hilbert.error (hilbert.mkSpace 16)).
    rewrite Ea. reflexivity.
  - repeat (split; [reflexivity |]).
    intros x y Hx Hy. unfold RGBAAt. cbn [Width Height Pix].
    destruct (Z.leb_spec 0 x); [| lia].
    destruct (Z.ltb_spec x 16); [| lia].
    destruct (Z.leb_spec 0 y); [| lia].
    destruct (Z.ltb_spec y 16); [| lia].
    cbn [andb]. rewrite colors_at_first.
    split; [| split]; try reflexivity;
      apply lookup_replicate_2; lia.
Qed.

Lemma C7_empty_slash24_witness :
  exists blank clear,
    renderImage cvttsd2sq (mkIPNet [10; 0; 0; 0] [255; 255; 255; 0]) false ScanHostUp []
    = Val (inl blank)
    /\ renderImage cvttsd2sq (mkIPNet [10; 0; 0; 0] [255; 255; 255; 0]) true ScanHostUp []
       = Val (inl clear)
    /\ Width blank = 16 /\ Height blank = 16
    /\ Width clear = 16 /\ Height clear = 16
    /\ (forall x y, 0 <= x < 16 -> 0 <= y < 16 ->
          RGBAAt blank x y = Some (colors_at 0)
          /\ colors_at 0 = mkRGBA 0 0 0 255
          /\ RGBAAt clear x y = Some (mkRGBA 0 0 0 0)).
Proof.
  apply (C7_empty_slash24 cvttsd2sq (mkIPNet [10; 0; 0; 0] [255; 255; 255; 0])
           ScanHostUp).
  - reflexivity.
  - discriminate.
Defined.

Lemma IPv4ToInt_range (ip : IP) (a : Z) :
  IPv4ToInt ip = Val a -> 0 <= a < 2 ^ 32.
Proof.
  unfold IPv4ToInt.
  destruct (To4 ip) as [|b0 [|b1 [|b2 [|b3 [|? ?]]]]]; try discriminate.
  intros [= <-]. unfold uint32. apply Z.mod_pos_bound. lia.
Qed.

Lemma fold_max_ge (st : ScanType) (hosts : list Host) (m : Z) :
  m <= fold_left (fun max h => if metric st h >? max then metric st h else max)
                 hosts m.
Proof.
  revert m. induction hosts as [|h hosts IH]; intros m; simpl; [lia |].
  etransitivity; [| apply IH].
  destruct (Z.gtb_spec (metric st h) m); lia.
Qed.

Lemma fold_max_upper (st : ScanType) (hosts : list Host) (m : Z) (h : Host) :
  h ∈ hosts ->
  metric st h <= fold_left (fun max h => if metric st h >? max then metric st h else max)
                           hosts m.
Proof.
  revert m. induction hosts as [|h0 hosts IH]; intros m Hin.
  - inversion Hin.
  - apply elem_of_cons in Hin as [-> | Hin]; simpl.
    + etransitivity; [| apply fold_max_ge].
      destruct (Z.gtb_spec (metric st h0) m); lia.
    + apply IH. exact Hin.
Qed.

Lemma fold_max_attained (st : ScanType) (hosts : list Host) (m : Z) :
  let r := fold_left (fun max h => if metric st h >? max then metric st h else max)
                     hosts m in
  r = m \/ exists h, h ∈ hosts /\ metric st h = r.
Proof.
  revert m. induction hosts as [|h0 hosts IH]; intros m; simpl; [left; reflexivity |].
  destruct (IH (if metric st h0 >? m then metric st h0 else m)) as [E | (h & Hin & E)].
  - rewrite E. destruct (Z.gtb_spec (metric st h0) m).
    + right. exists h0. split; [apply list_elem_of_here | reflexivity].
    + left. reflexivity.
  - right. exists h. split; [apply list_elem_of_further; exact Hin | exact E].
Qed.

(** With a zero maximum the painting loop panics at the first host it
    can map, when every host has a 4-byte address. *)
Lemma paint_zero_max (cv : float -> Z) hil s st (hosts : list Host) canvas :
  Forall (fun h => To4 (Host_IP h) <> []) hosts ->
  Exists (fun h => exists a xy, IPv4ToInt (Host_IP h) = Val a
                               /\ hilbert.Map hil (uint32 (a - s)) = inl xy) hosts ->
  paint cv hil s st 0 hosts canvas = Panicked DivideByZero.
Proof.
  intros HF HE. induction HE as [h rest (a & [x y] & Ea & Em) | h rest HE IH].
  - simpl. unfold paintHost. rewrite Ea. simpl. rewrite Em. reflexivity.
  - apply Forall_cons in HF as [Hh HF]. simpl.
    destruct (IPv4ToInt_Val _ Hh) as (a & Ea & _).
    unfold paintHost at 1. rewrite Ea. simpl.
    destruct (hilbert.Map hil (uint32 (a - s))) as [[x y] | err]; simpl.
    + reflexivity.
    + apply IH. exact HF.
Qed.

(** C2. [max] is the largest metric, or 0 when no metric is positive (so
    0 for no host at all). The division that normalises a metric is not
    guarded: with [max] equal to 0 the first host that can be mapped makes
    [renderImage] panic with a division by zero, instead of getting level
    0 and the coldest colour. *)
Theorem C2_zero_max_divides_by_zero (cv : float -> Z) (n : IPNet) (t : bool)
    (st : ScanType) (hosts : list Host) (l : Z) (e : option error)
    (hil : hilbert.Space) (s : Z) :
  getLength cv n = (l, e) ->
  hilbert.New l = inl hil ->
  IPv4ToInt (IPNet_IP n) = Val s ->
  maxMetric st hosts = 0 ->
  Forall (fun h => To4 (Host_IP h) <> []) hosts ->
  Exists (fun h => exists a xy, IPv4ToInt (Host_IP h) = Val a
                               /\ hilbert.Map hil (uint32 (a - s)) = inl xy) hosts ->
  maxMetric st [] = 0
  /\ (forall h, h ∈ hosts -> metric st h <= maxMetric st hosts)
  /\ renderImage cv n t st hosts = Panicked DivideByZero.
Proof.
  intros EL EN Es Emax HF HE. split; [reflexivity | split].
  - intros h Hin. apply fold_max_upper. exact Hin.
  - unfold renderImage. rewrite EL, EN, Es. simpl. rewrite Emax.
    rewrite paint_zero_max by assumption. reflexivity.
Qed.

Lemma C2_zero_max_divides_by_zero_witness :
  maxMetric ScanHostUp [] = 0
  /\ (forall h, h ∈ [mkHost [10; 0; 0; 1] 0 []] ->
        metric ScanHostUp h <= maxMetric ScanHostUp [mkHost [10; 0; 0; 1] 0 []])
  /\ renderImage cvttsd2sq (mkIPNet [10; 0; 0; 0] [255; 255; 255; 0]) false ScanHostUp
                 [mkHost [10; 0; 0; 1] 0 []]
     = Panicked DivideByZero.
Proof.
  apply (C2_zero_max_divides_by_zero cvttsd2sq
           (mkIPNet [10; 0; 0; 0] [255; 255; 255; 0]) false ScanHostUp
           [mkHost [10; 0; 0; 1] 0 []] 16 None (hilbert.mkSpace 16) 167772160).
  - vm_compute. reflexivity.
  - reflexivity.
  - reflexivity.
  - reflexivity.
  - repeat constructor. discriminate.
  - apply Exists_cons_hd. exists 167772161, (1, 0). split; vm_compute; reflexivity.
Defined.

(** X14. The maximum metric is never negative, bounds the metric of
    every host, and is 0 or the metric of some host: negative metrics
    count as 0. *)
Lemma maxMetric_spec (st : ScanType) (hosts : list Host) :
  0 <= maxMetric st hosts
  /\ (forall h, h ∈ hosts -> metric st h <= maxMetric st hosts)
  /\ (maxMetric st hosts = 0 \/ exists h, h ∈ hosts /\ metric st h = maxMetric st hosts).
Proof.
  split; [apply fold_max_ge | split].
  - intros h Hin. apply fold_max_upper. exact Hin.
  - apply fold_max_attained.
Qed.

(** The offset of an address outside [s, s + l*l) is not below l*l once
    it is reduced to [uint32]: an address below the base wraps around. *)
Lemma offset_outside (s a l : Z) :
  0 <= s -> 0 <= a < 2 ^ 32 -> s + l * l <= 2 ^ 32 ->
  a < s \/ s + l * l <= a ->
  l * l <= uint32 (a - s).
Proof.
  intros Hs Ha Hfit Hout. unfold uint32.
  pose proof (Z.square_nonneg l) as Hsq.
  destruct Hout as [Hlt | Hge].
  - replace (a - s) with (a - s + 2 ^ 32 + (-1) * 2 ^ 32) by ring.
    rewrite Z.mod_add by lia. rewrite Z.mod_small; lia.
  - rewrite Z.mod_small; lia.
Qed.

Lemma paintHost_skip (cv : float -> Z) hil s st max canvas (h : Host) (a : Z) :
  IPv4ToInt (Host_IP h) = Val a ->
  hilbert.N hil * hilbert.N hil <= uint32 (a - s) ->
  paintHost cv hil s st max canvas h = Val canvas.
Proof.
  intros Ea Hout. unfold paintHost. rewrite Ea. simpl.
  rewrite Map_out_of_range by exact Hout. reflexivity.
Qed.

Lemma maxMetric_skip (st : ScanType) (hs1 hs2 : list Host) (h : Host) :
  metric st h <= maxMetric st (hs1 ++ hs2) ->
  maxMetric st (hs1 ++ h :: hs2) = maxMetric st (hs1 ++ hs2).
Proof.
  intros Hle. unfold maxMetric in *. apply Z.le_antisymm.
  - destruct (fold_max_attained st (hs1 ++ h :: hs2) 0) as [E | (h' & Hin & E)].
    + rewrite E. apply fold_max_ge.
    + rewrite <- E. apply elem_of_app in Hin as [Hin | Hin].
      * apply fold_max_upper. apply elem_of_app. left. exact Hin.
      * apply elem_of_cons in Hin as [-> | Hin]; [exact Hle |].
        apply fold_max_upper. apply elem_of_app. right. exact Hin.
  - destruct (fold_max_attained st (hs1 ++ hs2) 0) as [E | (h' & Hin & E)].
    + rewrite E. apply fold_max_ge.
    + rewrite <- E. apply fold_max_upper.
      apply elem_of_app in Hin as [Hin | Hin]; apply elem_of_app;
        [left; exact Hin | right; apply list_elem_of_further; exact Hin].
Qed.

(** C6, as amended. A host of the list whose address lies outside the
    network (below the base, or at or beyond base + side * side) is
    skipped: its iteration returns the canvas as it got it and does not
    panic, and the loop paints the other hosts as if the host were not
    in the list. The maximum is taken over every host, skipped or not:
    [renderImage] is the painting of the other hosts under the maximum
    over all hosts, and it equals the render without the skipped host
    when that host's metric does not exceed the maximum of the others. *)
Theorem C6_out_of_range_skipped (cv : float -> Z) (n : IPNet) (t : bool)
    (st : ScanType) (l : Z) (e : option error) (hil : hilbert.Space)
    (s a : Z) (h : Host) :
  getLength cv n = (l, e) ->
  hilbert.New l = inl hil ->
  IPv4ToInt (IPNet_IP n) = Val s ->
  IPv4ToInt (Host_IP h) = Val a ->
  s + l * l <= 2 ^ 32 ->
  a < s \/ s + l * l <= a ->
  (forall max canvas, paintHost cv hil s st max canvas h = Val canvas)
  /\ (forall max canvas hs1 hs2,
        paint cv hil s st max (hs1 ++ h :: hs2) canvas
        = paint cv hil s st max (hs1 ++ hs2) canvas)
  /\ (forall hs1 hs2,
        renderImage cv n t st (hs1 ++ h :: hs2)
        = (c ← paint cv hil s st (maxMetric st (hs1 ++ h :: hs2)) (hs1 ++ hs2)
                     (startCanvas t l);
           Val (inl c)))
  /\ (forall hs1 hs2,
        metric st h <= maxMetric st (hs1 ++ hs2) ->
        renderImage cv n t st (hs1 ++ h :: hs2) = renderImage cv n t st (hs1 ++ hs2)).
Proof.
  intros EL EN Es Ea Hfit Hout.
  destruct (New_Some _ _ EN) as [HN Hl].
  assert (Hoff : hilbert.N hil * hilbert.N hil <= uint32 (a - s)).
  { rewrite HN. apply offset_outside; try assumption.
    - apply (IPv4ToInt_range _ _ Es).
    - apply (IPv4ToInt_range _ _ Ea). }
  assert (Hskip : forall max canvas, paintHost cv hil s st max canvas h = Val canvas).
  { intros. apply (paintHost_skip _ _ _ _ _ _ _ a); assumption. }
  assert (Hpaint : forall max canvas hs1 hs2,
             paint cv hil s st max (hs1 ++ h :: hs2) canvas
             = paint cv hil s st max (hs1 ++ hs2) canvas).
  { intros max canvas hs1 hs2. rewrite !paint_app.
    destruct (paint cv hil s st max hs1 canvas) as [c | p]; simpl; [| reflexivity].
    rewrite Hskip. reflexivity. }
  split; [exact Hskip | split; [exact Hpaint | split]].
  - intros hs1 hs2. unfold renderImage, startCanvas.
    rewrite EL, EN, Es. simpl. rewrite Hpaint. reflexivity.
  - intros hs1 hs2 Hle. unfold renderImage.
    rewrite EL, EN, Es. simpl.
    rewrite (maxMetric_skip st hs1 hs2 h Hle), Hpaint. reflexivity.
Qed.

Lemma C6_out_of_range_skipped_witness :
  (forall max canvas,
      paintHost cvttsd2sq (hilbert.mkSpace 16) 167772160 ScanHostUp max canvas
                (mkHost [10; 0; 1; 7] 5 [])
      = Val canvas)
  /\ (forall max canvas hs1 hs2,
        paint cvttsd2sq (hilbert.mkSpace 16) 167772160 ScanHostUp max
              (hs1 ++ mkHost [10; 0; 1; 7] 5 [] :: hs2) canvas
        = paint cvttsd2sq (hilbert.mkSpace 16) 167772160 ScanHostUp max
                (hs1 ++ hs2) canvas)
  /\ (forall hs1 hs2,
        renderImage cvttsd2sq (mkIPNet [10; 0; 0; 0] [255; 255; 255; 0]) false ScanHostUp
                    (hs1 ++ mkHost [10; 0; 1; 7] 5 [] :: hs2)
        = (c ← paint cvttsd2sq (hilbert.mkSpace 16) 167772160 ScanHostUp
                     (maxMetric ScanHostUp (hs1 ++ mkHost [10; 0; 1; 7] 5 [] :: hs2))
                     (hs1 ++ hs2) (startCanvas false 16);
           Val (inl c)))
  /\ (forall hs1 hs2,
        metric ScanHostUp (mkHost [10; 0; 1; 7] 5 []) <= maxMetric ScanHostUp (hs1 ++ hs2) ->
        renderImage cvttsd2sq (mkIPNet [10; 0; 0; 0] [255; 255; 255; 0]) false ScanHostUp
                    (hs1 ++ mkHost [10; 0; 1; 7] 5 [] :: hs2)
        = renderImage cvttsd2sq (mkIPNet [10; 0; 0; 0] [255; 255; 255; 0]) false
                      ScanHostUp (hs1 ++ hs2)).
Proof.
  apply (C6_out_of_range_skipped cvttsd2sq
           (mkIPNet [10; 0; 0; 0] [255; 255; 255; 0]) false ScanHostUp
           16 None (hilbert.mkSpace 16) 167772160 167772423
           (mkHost [10; 0; 1; 7] 5 [])).
  - vm_compute. reflexivity.
  - reflexivity.
  - reflexivity.
  - reflexivity.
  - lia.
  - right. lia.
Defined.

(** C6, as stated, fails: on 10.0.0.0/24 the host 10.0.1.7 (offset 263)
    is out of range and is skipped, but its RTT 40 raises the maximum,
    so the pixel of 10.0.0.1 (RTT 10) is no longer the hottest colour it
    is in the render without the skipped host. *)
Lemma C6_skipped_host_raises_max :
  hilbert.Map (hilbert.mkSpace 16) (uint32 (167772423 - 167772160))
  = inr hilbert.OffsetOutOfRange
  /\ exists c1 c2,
      renderImage cvttsd2sq (mkIPNet [10; 0; 0; 0] [255; 255; 255; 0]) false ScanHostUp
                  [mkHost [10; 0; 0; 1] 10 []; mkHost [10; 0; 1; 7] 40 []]
      = Val (inl c1)
      /\ renderImage cvttsd2sq (mkIPNet [10; 0; 0; 0] [255; 255; 255; 0]) false ScanHostUp
                     [mkHost [10; 0; 0; 1] 10 []]
         = Val (inl c2)
      /\ RGBAAt c1 1 0 = Some (mkRGBA 0 253 255 255)
      /\ RGBAAt c2 1 0 = Some (mkRGBA 255 255 255 255).
Proof.
  split; [reflexivity |].
  eexists. eexists.
  split; [vm_compute; reflexivity |].
  split; [vm_compute; reflexivity |].
  split; vm_compute; reflexivity.
Qed.

(** ** Hosts without an IPv4 address *)

Lemma paint_nil_IP (cv : float -> Z) hil s st max (hosts : list Host) canvas (h : Host) :
  h ∈ hosts -> To4 (Host_IP h) = [] ->
  panics (paint cv hil s st max hosts canvas).
Proof.
  intros Hin Hnil. revert canvas.
  induction hosts as [|h0 hosts IH]; intros canvas.
  - inversion Hin.
  - simpl. apply elem_of_cons in Hin as [<- | Hin].
    + unfold paintHost. rewrite (IPv4ToInt_nil _ Hnil). exact I.
    + destruct (paintHost cv hil s st max canvas h0) as [c | p]; simpl.
      * apply IH. exact Hin.
      * exact I.
Qed.

Section ParseXmlFacts.

Variable ParseIP : string -> IP.
Variable Atoi : string -> option Z.
Variable IP_text : IP -> string.

(** No address element of type "ipv4": the host keeps the nil address
    it starts with. *)
Lemma hostIP_none (addrs : list xnAddr) :
  Forall (fun xa => AddrType xa <> "ipv4"%string) addrs ->
  hostIP ParseIP addrs = [].
Proof.
  unfold hostIP. generalize (@nil Z) as ip.
  induction addrs as [|xa addrs IH]; intros ip HF; simpl; [reflexivity |].
  apply Forall_cons in HF as [Hxa HF].
  destruct (String.eqb_spec (AddrType xa) "ipv4"); [contradiction |].
  apply IH. exact HF.
Qed.

Lemma parseHost_nil_IP (hosts hosts' : list Host) (xh : xnHost) :
  hostIP ParseIP (Addrs xh) = [] ->
  parseHost ParseIP Atoi IP_text hosts xh = Val hosts' ->
  exists rtt open, hosts' = hosts ++ [mkHost [] rtt open].
Proof.
  intros Hnil. unfold parseHost.
  destruct (hostPorts [] (Ports xh)) as [open | p]; simpl; [| discriminate].
  rewrite Hnil. simpl. intros [= <-]. eauto.
Qed.

Lemma parseHost_grows (hosts hosts' : list Host) (xh : xnHost) (h : Host) :
  parseHost ParseIP Atoi IP_text hosts xh = Val hosts' ->
  h ∈ hosts -> h ∈ hosts'.
Proof.
  unfold parseHost.
  destruct (hostPorts [] (Ports xh)) as [open | p]; simpl; [| discriminate].
  destruct (negb _); intros [= <-] Hin; [| exact Hin].
  apply elem_of_app. left. exact Hin.
Qed.

Lemma parseHosts_grows (xhs : list xnHost) (hosts hosts' : list Host) (h : Host) :
  parseHosts ParseIP Atoi IP_text hosts xhs = Val hosts' ->
  h ∈ hosts -> h ∈ hosts'.
Proof.
  revert hosts. induction xhs as [|xh xhs IH]; intros hosts; simpl.
  - intros [= <-] Hin. exact Hin.
  - destruct (parseHost ParseIP Atoi IP_text hosts xh) as [hs | p] eqn:E; simpl;
      [| discriminate].
    intros E' Hin. apply (IH hs E'). apply (parseHost_grows _ _ _ _ E Hin).
Qed.

Lemma parseHosts_nil_IP (xhs : list xnHost) (hosts hosts' : list Host) (xh : xnHost) :
  parseHosts ParseIP Atoi IP_text hosts xhs = Val hosts' ->
  xh ∈ xhs -> hostIP ParseIP (Addrs xh) = [] ->
  exists h, h ∈ hosts' /\ Host_IP h = [].
Proof.
  revert hosts. induction xhs as [|xh0 xhs IH]; intros hosts E Hin Hnil.
  - inversion Hin.
  - simpl in E.
    destruct (parseHost ParseIP Atoi IP_text hosts xh0) as [hs | p] eqn:E0; simpl in E;
      [| discriminate].
    apply elem_of_cons in Hin as [<- | Hin].
    + destruct (parseHost_nil_IP _ _ _ Hnil E0) as (rtt & open & ->).
      exists (mkHost [] rtt open). split; [| reflexivity].
      apply (parseHosts_grows _ _ _ _ E).
      apply elem_of_app. right. apply list_elem_of_here.
    + apply (IH hs E Hin Hnil).
Qed.

End ParseXmlFacts.

(** C10. [IPv4ToInt] indexes the result of [To4] unchecked, so it panics
    for an address that has no 4-byte form; a nil address prints as
    "<nil>", so the filter of [parseXml] (the text is not empty) keeps a
    host that has no IPv4 address; and [renderImage], once the curve is
    built and the base address converted, panics on a list that holds
    such a host. *)
Theorem C10_nil_IP_reaches_render (cv : float -> Z)
    (ParseIP : string -> IP) (Atoi : string -> option Z) (IP_text : IP -> string) :
  (forall ip, To4 ip = [] -> IPv4ToInt ip = Panicked IndexOutOfRange)
  /\ To4 [] = []
  /\ IP_String IP_text [] = "<nil>"%string
  /\ (forall doc hosts xh,
        parseXml ParseIP Atoi IP_text doc = Val hosts ->
        xh ∈ Hosts doc ->
        Forall (fun xa => AddrType xa <> "ipv4"%string) (Addrs xh) ->
        exists h, h ∈ hosts /\ Host_IP h = [])
  /\ (forall n t st hosts h l e hil s,
        getLength cv n = (l, e) ->
        hilbert.New l = inl hil ->
        IPv4ToInt (IPNet_IP n) = Val s ->
        h ∈ hosts -> To4 (Host_IP h) = [] ->
        panics (renderImage cv n t st hosts)).
Proof.
  split; [exact IPv4ToInt_nil |].
  split; [reflexivity |].
  split; [reflexivity |].
  split.
  - intros doc hosts xh E Hin HF.
    apply (parseHosts_nil_IP ParseIP Atoi IP_text _ _ _ xh E Hin).
    apply hostIP_none. exact HF.
  - intros n t st hosts h l e hil s EL EN Es Hin Hnil.
    unfold renderImage. rewrite EL, EN, Es. simpl.
    pose proof (paint_nil_IP cv hil s st (maxMetric st hosts) hosts
                  (if negb t then fill (colors_at 0) (NewRGBA l l) else NewRGBA l l)
                  h Hin Hnil) as HP.
    destruct (paint cv hil s st (maxMetric st hosts) hosts _) as [c | p];
      [destruct HP | exact I].
Qed.

(** A scanned host without an address element, parsed and rendered. *)
Lemma C10_nil_IP_reaches_render_witness :
  parseXml (fun _ => []) (fun _ => None) (fun _ => "?"%string)
           (mkDoc [mkXnHost [] [mkTimes "1200"] []])
  = Val [mkHost [] 0 []]
  /\ panics (renderImage cvttsd2sq (mkIPNet [10; 0; 0; 0] [255; 255; 255; 0]) false
                         ScanHostUp [mkHost [] 0 []]).
Proof.
  split; [reflexivity |].
  apply (proj2 (proj2 (proj2 (proj2
           (C10_nil_IP_reaches_render cvttsd2sq (fun _ => []) (fun _ => None)
              (fun _ => "?"%string)))))
           (mkIPNet [10; 0; 0; 0] [255; 255; 255; 0]) false ScanHostUp
           [mkHost [] 0 []] (mkHost [] 0 []) 16 None (hilbert.mkSpace 16) 167772160).
  - vm_compute. reflexivity.
  - reflexivity.
  - reflexivity.
  - apply list_elem_of_here.
  - reflexivity.
Defined.

(** ** The curve *)

Lemma pow2_pos (j : nat) : 0 < pow2 j.
Proof. unfold pow2. apply Z.pow_pos_nonneg; lia. Qed.

Lemma pow2_S (j : nat) : pow2 (S j) = pow2 j * 2.
Proof. unfold pow2. rewrite Nat2Z.inj_succ, Z.pow_succ_r by lia. ring. Qed.

Lemma pow2_sq (j : nat) : pow2 j * pow2 j = 4 ^ Z.of_nat j.
Proof.
  unfold pow2. change 4 with (2 ^ 2).
  rewrite <- Z.pow_mul_r, <- Z.pow_add_r by lia. f_equal. lia.
Qed.

(** An integer is four times its quotient by 4, plus its two low bits. *)
Lemma low_bits (t : Z) :
  t = 4 * (t / 4) + 2 * Z.b2z (Z.testbit t 1) + Z.b2z (Z.testbit t 0).
Proof.
  rewrite !Z.testbit_spec' by lia.
  change (2 ^ 1) with 2. change (2 ^ 0) with 1. rewrite Z.div_1_r.
  pose proof (Z.div_mod t 2 ltac:(lia)) as H0.
  pose proof (Z.div_mod (t / 2) 2 ltac:(lia)) as H1.
  rewrite Z.div_div in H1 by lia. change (2 * 2) with 4 in H1. lia.
Qed.

Lemma low_bits_of (q : Z) (b1 b0 : bool) :
  let t := 4 * q + 2 * Z.b2z b1 + Z.b2z b0 in
  t / 4 = q /\ Z.testbit t 1 = b1 /\ Z.testbit t 0 = b0.
Proof.
  intros t.
  assert (Hq : t / 4 = q).
  { symmetry. apply (Z.div_unique_pos t 4 q (t - 4 * q));
      unfold t; destruct b1, b0; simpl Z.b2z; lia. }
  pose proof (low_bits t) as Ht. rewrite Hq in Ht. unfold t in Ht at 1.
  destruct b1, b0, (Z.testbit t 1), (Z.testbit t 0); simpl Z.b2z in Ht;
    (split; [exact Hq | split; first [reflexivity | lia]]).
Qed.

Lemma place_range (i : Z) (b1 b0 : bool) (x y x' y' : Z) :
  0 <= x < i -> 0 <= y < i ->
  hilbert.place i b1 b0 x y = (x', y') ->
  0 <= x' < i * 2 /\ 0 <= y' < i * 2.
Proof.
  intros Hx Hy. unfold hilbert.place, hilbert.rotate.
  destruct b1, b0; simpl; intros [= <- <-]; lia.
Qed.

Lemma place_inj (i : Z) (b1 b0 c1 c0 : bool) (x y u v : Z) :
  0 <= x < i -> 0 <= y < i -> 0 <= u < i -> 0 <= v < i ->
  hilbert.place i b1 b0 x y = hilbert.place i c1 c0 u v ->
  b1 = c1 /\ b0 = c0 /\ x = u /\ y = v.
Proof.
  intros Hx Hy Hu Hv. unfold hilbert.place, hilbert.rotate.
  destruct b1, b0, c1, c0; simpl; intros [= E1 E2];
    first [lia | repeat split; lia].
Qed.

Lemma place_surj (i : Z) (X Y : Z) :
  0 <= X < i * 2 -> 0 <= Y < i * 2 ->
  exists b1 b0 x y,
    0 <= x < i /\ 0 <= y < i /\ hilbert.place i b1 b0 x y = (X, Y).
Proof.
  intros HX HY. unfold hilbert.place, hilbert.rotate.
  destruct (Z.lt_ge_cases X i) as [Hx | Hx], (Z.lt_ge_cases Y i) as [Hy | Hy].
  - exists false, false, Y, X. simpl. repeat split; lia.
  - exists false, true, X, (Y - i). simpl. repeat split; try lia. f_equal; lia.
  - exists true, true, (i - 1 - Y), (2 * i - 1 - X). simpl.
    repeat split; try lia. f_equal; lia.
  - exists true, false, (X - i), (Y - i). simpl.
    repeat split; try lia. f_equal; lia.
Qed.

Lemma walk_S (f : nat) (j : nat) (t x y : Z) :
  hilbert.walk (S f) (pow2 (j + S f)) (pow2 j) t x y
  = let '(x', y') := hilbert.place (pow2 j) (Z.testbit t 1) (Z.testbit t 0) x y in
    hilbert.walk f (pow2 (S j + f)) (pow2 (S j)) (t / 4) x' y'.
Proof.
  cbn [hilbert.walk].
  assert (Hlt : pow2 j < pow2 (j + S f)).
  { unfold pow2. apply Z.pow_lt_mono_r; lia. }
  destruct (Z.ltb_spec (pow2 j) (pow2 (j + S f))); [| lia].
  rewrite <- pow2_S. replace (j + S f)%nat with (S j + f)%nat by lia.
  reflexivity.
Qed.

(** Walking [f] more digits from a point of the square of side 2^j ends
    in the square of side 2^(j+f). *)
Lemma walk_range (f : nat) : forall (j : nat) (t x y X Y : Z),
  0 <= x < pow2 j -> 0 <= y < pow2 j ->
  hilbert.walk f (pow2 (j + f)) (pow2 j) t x y = (X, Y) ->
  0 <= X < pow2 (j + f) /\ 0 <= Y < pow2 (j + f).
Proof.
  induction f as [|f IH]; intros j t x y X Y Hx Hy.
  - rewrite Nat.add_0_r. simpl. intros [= <- <-]. split; assumption.
  - rewrite walk_S.
    destruct (hilbert.place (pow2 j) (Z.testbit t 1) (Z.testbit t 0) x y)
      as [x' y'] eqn:Ep.
    destruct (place_range _ _ _ _ _ _ _ Hx Hy Ep) as [Hx' Hy'].
    rewrite <- pow2_S in Hx', Hy'.
    replace (j + S f)%nat with (S j + f)%nat by lia.
    apply IH; assumption.
Qed.

(** The walk is one-to-one, jointly in the digits it reads and in the
    point it starts from. *)
Lemma walk_inj (f : nat) : forall (j : nat) (t x y u a b : Z),
  0 <= x < pow2 j -> 0 <= y < pow2 j -> 0 <= a < pow2 j -> 0 <= b < pow2 j ->
  0 <= t < 4 ^ Z.of_nat f -> 0 <= u < 4 ^ Z.of_nat f ->
  hilbert.walk f (pow2 (j + f)) (pow2 j) t x y
  = hilbert.walk f (pow2 (j + f)) (pow2 j) u a b ->
  t = u /\ x = a /\ y = b.
Proof.
  induction f as [|f IH]; intros j t x y u a b Hx Hy Ha Hb Ht Hu.
  - simpl in *. intros [= -> ->]. repeat split; lia.
  - rewrite !walk_S.
    destruct (hilbert.place (pow2 j) (Z.testbit t 1) (Z.testbit t 0) x y)
      as [x' y'] eqn:Ep.
    destruct (hilbert.place (pow2 j) (Z.testbit u 1) (Z.testbit u 0) a b)
      as [a' b'] eqn:Eq.
    destruct (place_range _ _ _ _ _ _ _ Hx Hy Ep) as [Hx' Hy'].
    destruct (place_range _ _ _ _ _ _ _ Ha Hb Eq) as [Ha' Hb'].
    rewrite <- pow2_S in Hx', Hy', Ha', Hb'.
    rewrite Nat2Z.inj_succ, Z.pow_succ_r in Ht, Hu by lia.
    intros E.
    apply IH in E; try assumption;
      try (split; [apply Z.div_pos; lia | apply Z.div_lt_upper_bound; lia]).
    destruct E as (Ediv & -> & ->).
    rewrite <- Eq in Ep.
    apply place_inj in Ep as (E1 & E0 & -> & ->); try assumption.
    repeat split.
    rewrite (low_bits t), (low_bits u), Ediv, E1, E0. reflexivity.
Qed.

(** Every point of the square of side 2^(j+f) is reached. *)
Lemma walk_surj (f : nat) : forall (j : nat) (X Y : Z),
  0 <= X < pow2 (j + f) -> 0 <= Y < pow2 (j + f) ->
  exists t x y,
    0 <= t < 4 ^ Z.of_nat f /\ 0 <= x < pow2 j /\ 0 <= y < pow2 j
    /\ hilbert.walk f (pow2 (j + f)) (pow2 j) t x y = (X, Y).
Proof.
  induction f as [|f IH]; intros j X Y HX HY.
  - rewrite Nat.add_0_r in HX, HY. exists 0, X, Y. simpl. repeat split; lia.
  - replace (j + S f)%nat with (S j + f)%nat in HX, HY by lia.
    destruct (IH (S j) X Y HX HY) as (t' & x' & y' & Ht' & Hx' & Hy' & E).
    rewrite pow2_S in Hx', Hy'.
    destruct (place_surj (pow2 j) x' y' Hx' Hy') as (b1 & b0 & x & y & Hx & Hy & Ep).
    destruct (low_bits_of t' b1 b0) as (Eq & E1 & E0).
    exists (4 * t' + 2 * Z.b2z b1 + Z.b2z b0), x, y.
    split; [| split; [exact Hx | split; [exact Hy |]]].
    + rewrite Nat2Z.inj_succ, Z.pow_succ_r by lia.
      destruct b1, b0; simpl Z.b2z; lia.
    + rewrite walk_S, E1, E0, Ep, Eq. exact E.
Qed.

Lemma New_pow2 (k : nat) : hilbert.New (pow2 k) = inl (hilbert.mkSpace (pow2 k)).
Proof.
  unfold hilbert.New. pose proof (pow2_pos k) as Hpos.
  destruct (Z.leb_spec (pow2 k) 0); [lia |].
  replace (Z.land (pow2 k) (pow2 k - 1)) with 0; [reflexivity |].
  unfold pow2. rewrite Z.sub_1_r, <- Z.ones_equiv, Z.land_ones by lia.
  symmetry. apply Z_mod_same_full.
Qed.

Lemma Map_pow2 (k : nat) (t : Z) :
  0 <= t < pow2 k * pow2 k ->
  hilbert.Map (hilbert.mkSpace (pow2 k)) t
  = inl (hilbert.walk k (pow2 (0 + k)) (pow2 0) t 0 0).
Proof.
  intros Ht. unfold hilbert.Map. cbn [hilbert.N].
  destruct (Z.ltb_spec t 0); [lia |].
  destruct (Z.leb_spec (pow2 k * pow2 k) t); [lia |].
  cbn [orb]. unfold pow2 at 1.
  rewrite Z.log2_up_pow2, Nat2Z.id by lia.
  reflexivity.
Qed.

Lemma Map_in_range (s : hilbert.Space) (t : Z) (p : Z * Z) :
  hilbert.Map s t = inl p -> 0 <= t < hilbert.N s * hilbert.N s.
Proof.
  unfold hilbert.Map.
  destruct (Z.ltb_spec t 0); [discriminate |].
  destruct (Z.leb_spec (hilbert.N s * hilbert.N s) t); [discriminate |].
  intros _. lia.
Qed.

(** C5. For a side that is a power of two the mapper is built, and it
    is a bijection between the offsets of [0, side * side) and the
    points of [0, side) x [0, side): every such offset has a point in
    range, offsets with the same point are equal, and every point in
    range is the point of exactly one offset. *)
Theorem C5_curve_bijection (side : Z) (k : nat) :
  side = 2 ^ Z.of_nat k ->
  exists s,
    hilbert.New side = inl s
    /\ (forall t, 0 <= t < side * side ->
          exists x y, hilbert.Map s t = inl (x, y) /\ 0 <= x < side /\ 0 <= y < side)
    /\ (forall t u p, hilbert.Map s t = inl p -> hilbert.Map s u = inl p -> t = u)
    /\ (forall x y, 0 <= x < side -> 0 <= y < side ->
          exists t, 0 <= t < side * side
                    /\ hilbert.Map s t = inl (x, y)
                    /\ forall u, hilbert.Map s u = inl (x, y) -> u = t).
Proof.
  intros ->. fold (pow2 k).
  exists (hilbert.mkSpace (pow2 k)).
  assert (Hinj : forall t u p,
             hilbert.Map (hilbert.mkSpace (pow2 k)) t = inl p ->
             hilbert.Map (hilbert.mkSpace (pow2 k)) u = inl p -> t = u).
  { intros t u p Et Eu.
    pose proof (Map_in_range _ _ _ Et) as Ht.
    pose proof (Map_in_range _ _ _ Eu) as Hu.
    cbn [hilbert.N] in Ht, Hu.
    rewrite Map_pow2 in Et, Eu by assumption.
    rewrite <- Eu in Et. injection Et as Et.
    rewrite pow2_sq in Ht, Hu.
    apply (walk_inj k 0 t 0 0 u 0 0) in Et as (E & _ & _); try assumption;
      unfold pow2; simpl; lia. }
  split; [apply New_pow2 | split; [| split; [exact Hinj |]]].
  - intros t Ht. rewrite Map_pow2 by assumption.
    destruct (hilbert.walk k (pow2 (0 + k)) (pow2 0) t 0 0) as [x y] eqn:E.
    exists x, y. split; [reflexivity |].
    apply (walk_range k 0 t 0 0 x y) in E; [exact E | |]; unfold pow2; simpl; lia.
  - intros x y Hx Hy.
    destruct (walk_surj k 0 x y Hx Hy) as (t & x0 & y0 & Ht & Hx0 & Hy0 & E).
    assert (x0 = 0) as -> by (unfold pow2 in Hx0; simpl in Hx0; lia).
    assert (y0 = 0) as -> by (unfold pow2 in Hy0; simpl in Hy0; lia).
    rewrite <- pow2_sq in Ht.
    assert (EM : hilbert.Map (hilbert.mkSpace (pow2 k)) t = inl (x, y)).
    { rewrite Map_pow2 by assumption. rewrite E. reflexivity. }
    exists t. split; [exact Ht | split; [exact EM |]].
    intros u Eu. apply (Hinj u t (x, y) Eu EM).
Qed.

Lemma C5_curve_bijection_witness :
  exists s,
    hilbert.New 16 = inl s
    /\ (forall t, 0 <= t < 16 * 16 ->
          exists x y, hilbert.Map s t = inl (x, y) /\ 0 <= x < 16 /\ 0 <= y < 16)
    /\ (forall t u p, hilbert.Map s t = inl p -> hilbert.Map s u = inl p -> t = u)
    /\ (forall x y, 0 <= x < 16 -> 0 <= y < 16 ->
          exists t, 0 <= t < 16 * 16
                    /\ hilbert.Map s t = inl (x, y)
                    /\ forall u, hilbert.Map s u = inl (x, y) -> u = t).
Proof.
  apply (C5_curve_bijection 16 4). reflexivity.
Defined.

(** * Further properties of the code *)

(** ** getColor *)

Lemma blend_alpha (cv : float -> Z) (i lvl currV : Z) :
  A (blend cv i lvl currV)
  = float_to_uint8 cv (alpha_float cv i currV (float_of_Z lvl)).
Proof. reflexivity. Qed.

Lemma all_255_from_sound (f : float -> float) (n : nat) : forall lvl k,
  all_255_from f n lvl = true ->
  lvl <= k < lvl + Z.of_nat n ->
  f (float_of_Z k) = 255%float.
Proof.
  induction n as [|n IH]; intros lvl k E Hk; [lia |].
  cbn [all_255_from] in E. apply andb_true_iff in E as [E0 E].
  destruct (Z.eq_dec k lvl) as [-> | Hne].
  - apply FloatAxioms.Leibniz.eqb_spec. exact E0.
  - apply (IH (lvl + 1)); [exact E | lia].
Qed.

Lemma alpha_ok_sound (cv : float -> Z) (fuel : nat) : forall i lvl,
  alpha_ok cv fuel i = true -> 1 <= lvl <= 65534 ->
  A (getColor_loop cv fuel i lvl) = 255.
Proof.
  induction fuel as [|fuel IH]; intros i lvl E Hl; simpl; [reflexivity |].
  cbn [alpha_ok] in E.
  destruct (i <? len_colors); [| reflexivity].
  apply andb_true_iff in E as [E0 E].
  destruct (lvl <? _).
  - rewrite blend_alpha.
    rewrite (all_255_from_sound _ _ 1 lvl E0) by lia.
    reflexivity.
  - apply IH; assumption.
Qed.

Lemma alpha_ok_all (cv : float -> Z) : alpha_ok cv (size colors) 0 = true.
Proof. vm_compute. reflexivity. Qed.

Lemma float_to_uint8_range (cv : float -> Z) (f : float) :
  0 <= float_to_uint8 cv f <= 255.
Proof.
  unfold float_to_uint8, convert.
  assert (Hw : forall z, 0 <= uint8 z <= 255).
  { intros z. unfold uint8. pose proof (Z.mod_pos_bound z (2 ^ 8)). lia. }
  destruct (trunc f) as [z|]; [| apply Hw].
  destruct (Z.leb_spec 0 z), (Z.leb_spec z 255); simpl; first [lia | apply Hw].
Qed.

Lemma getColor_loop_bytes (cv : float -> Z) (fuel : nat) : forall i lvl,
  byte_channels (getColor_loop cv fuel i lvl).
Proof.
  induction fuel as [|fuel IH]; intros i lvl; simpl.
  - vm_compute. intuition discriminate.
  - destruct (i <? len_colors); [| vm_compute; intuition discriminate].
    destruct (lvl <? _); [| apply IH].
    unfold byte_channels, blend, channel; cbn [R G B].
    repeat split; apply float_to_uint8_range.
Qed.

Lemma getColor_alpha (cv : float -> Z) (lvl : Z) : A (getColor cv lvl) = 255.
Proof.
  destruct (Z.le_gt_cases lvl 0) as [H0 | H0].
  { rewrite getColor_low by exact H0. reflexivity. }
  destruct (Z.le_gt_cases MaxUint16 lvl) as [H1 | H1].
  { rewrite getColor_high by exact H1. reflexivity. }
  unfold MaxUint16 in H1. unfold getColor, MaxUint16.
  destruct (Z.leb_spec lvl 0); [lia |].
  destruct (Z.geb_spec lvl 65535); [lia |].
  apply alpha_ok_sound; [apply alpha_ok_all | lia].
Qed.

(** X1. Every colour [getColor] returns is opaque, and its other three
    channels are bytes, for every level and every implementation. *)
Theorem getColor_opaque (cv : float -> Z) (lvl : Z) :
  A (getColor cv lvl) = 255 /\ byte_channels (getColor cv lvl).
Proof.
  split; [apply getColor_alpha |].
  unfold getColor.
  destruct (lvl <=? 0); [vm_compute; intuition discriminate |].
  destruct (lvl >=? MaxUint16); [vm_compute; intuition discriminate |].
  apply getColor_loop_bytes.
Qed.

(** X2. The gradient ends at the centre of the last stop: every level
    from 56172 (6 * 65535 / 7) on gets the hottest colour. *)
Theorem getColor_top_is_white (cv : float -> Z) (lvl : Z) :
  56172 <= lvl -> getColor cv lvl = mkRGBA 255 255 255 255.
Proof.
  intros H. destruct (Z.le_gt_cases MaxUint16 lvl) as [H1 | H1].
  { rewrite getColor_high by exact H1. reflexivity. }
  unfold MaxUint16 in H1. unfold getColor, MaxUint16.
  destruct (Z.leb_spec lvl 0); [lia |].
  destruct (Z.geb_spec lvl 65535); [lia |].
  change (size colors) with 7%nat.
  cbn [getColor_loop].
  repeat match goal with
  | |- context [?i <? len_colors] =>
      let b := eval vm_compute in (i <? len_colors) in
      change (i <? len_colors) with b; cbv iota
  | |- context [lvl <? ?c] =>
      let v := eval vm_compute in c in
      change c with v;
      destruct (Z.ltb_spec lvl v); [lia |]
  end.
  reflexivity.
Qed.

Lemma getColor_top_is_white_witness :
  getColor cvttsd2sq 60000 = mkRGBA 255 255 255 255.
Proof. apply (getColor_top_is_white cvttsd2sq 60000). lia. Defined.

(** ** IPv4ToInt *)

Lemma IPv4ToInt_bytes (b0 b1 b2 b3 : Z) :
  0 <= b0 < 256 -> 0 <= b1 < 256 -> 0 <= b2 < 256 -> 0 <= b3 < 256 ->
  IPv4ToInt [b0; b1; b2; b3] = Val (b0 * 2 ^ 24 + b1 * 2 ^ 16 + b2 * 2 ^ 8 + b3).
Proof.
  intros H0 H1 H2 H3. unfold IPv4ToInt. cbn [To4 length Nat.eqb].
  rewrite !Z.shiftl_mul_pow2 by lia. unfold uint32.
  change (2 ^ 32) with 4294967296. change (2 ^ 24) with 16777216.
  change (2 ^ 16) with 65536. change (2 ^ 8) with 256.
  rewrite (Z.mod_small (b0 * _)), (Z.mod_small (b1 * _)),
    (Z.mod_small (b2 * _)) by lia.
  rewrite Z.mod_small by lia. reflexivity.
Qed.

(** X3. On 4-byte addresses [IPv4ToInt] is the big-endian value of the
    bytes, so two addresses with the same value are the same address; and
    the 16-byte IPv4-mapped form of an address has the value of its
    4-byte form. *)
Theorem IPv4ToInt_big_endian_injective (ip1 ip2 : IP) :
  length ip1 = 4%nat -> length ip2 = 4%nat ->
  Forall (fun b => 0 <= b < 256) ip1 -> Forall (fun b => 0 <= b < 256) ip2 ->
  (exists a, IPv4ToInt ip1 = Val a /\ 0 <= a < 2 ^ 32
             /\ a = ip1 !!! 0%nat * 2 ^ 24 + ip1 !!! 1%nat * 2 ^ 16
                    + ip1 !!! 2%nat * 2 ^ 8 + ip1 !!! 3%nat)
  /\ (IPv4ToInt ip1 = IPv4ToInt ip2 -> ip1 = ip2)
  /\ IPv4ToInt ([0; 0; 0; 0; 0; 0; 0; 0; 0; 0; 255; 255] ++ ip1) = IPv4ToInt ip1.
Proof.
  intros L1 L2 F1 F2.
  destruct ip1 as [|a0 [|a1 [|a2 [|a3 [|? ?]]]]]; try discriminate L1.
  destruct ip2 as [|c0 [|c1 [|c2 [|c3 [|? ?]]]]]; try discriminate L2.
  repeat match goal with
  | H : Forall _ (_ :: _) |- _ => apply Forall_cons in H as [? H]
  end.
  split; [| split; [| reflexivity]];
    rewrite !IPv4ToInt_bytes by assumption.
  - eexists. split; [reflexivity |].
    split; [| reflexivity].
    change (2 ^ 32) with 4294967296. change (2 ^ 24) with 16777216.
    change (2 ^ 16) with 65536. change (2 ^ 8) with 256. lia.
  - change (2 ^ 24) with 16777216.
    change (2 ^ 16) with 65536. change (2 ^ 8) with 256.
    intros [= E]. repeat f_equal; lia.
Qed.

Lemma IPv4ToInt_big_endian_injective_witness :
  (exists a, IPv4ToInt [10; 0; 0; 1] = Val a /\ 0 <= a < 2 ^ 32
             /\ a = [10; 0; 0; 1] !!! 0%nat * 2 ^ 24 + [10; 0; 0; 1] !!! 1%nat * 2 ^ 16
                    + [10; 0; 0; 1] !!! 2%nat * 2 ^ 8 + [10; 0; 0; 1] !!! 3%nat)
  /\ (IPv4ToInt [10; 0; 0; 1] = IPv4ToInt [10; 0; 1; 0] -> [10; 0; 0; 1] = [10; 0; 1; 0])
  /\ IPv4ToInt ([0; 0; 0; 0; 0; 0; 0; 0; 0; 0; 255; 255] ++ [10; 0; 0; 1])
     = IPv4ToInt [10; 0; 0; 1].
Proof.
  apply (IPv4ToInt_big_endian_injective [10; 0; 0; 1] [10; 0; 1; 0]);
    try reflexivity; repeat constructor; lia.
Defined.

(** ** getLength *)

Lemma leading_ones_bound (fuel : nat) : forall v n v' n',
  leading_ones fuel v n = (v', n') -> n <= n' <= n + Z.of_nat fuel.
Proof.
  induction fuel as [|fuel IH]; intros v n v' n'; cbn [leading_ones].
  - intros [= <- <-]. lia.
  - destruct (negb _).
    + intros E. apply IH in E. lia.
    + intros [= <- <-]. lia.
Qed.

Lemma simpleMaskLength_from_bound (mask : IPMask) : forall n,
  simpleMaskLength_from mask n = -1
  \/ n <= simpleMaskLength_from mask n <= n + 8 * Z.of_nat (length mask).
Proof.
  induction mask as [|v rest IH]; intros n; cbn [simpleMaskLength_from length].
  - right. lia.
  - destruct (v =? 255).
    + destruct (IH (n + 8)) as [E | E]; [left; exact E | right; lia].
    + destruct (leading_ones 8 v n) as [v' n'] eqn:EL.
      apply leading_ones_bound in EL.
      destruct (negb _); [left; reflexivity |].
      destruct (forallb _ _); [right; lia | left; reflexivity].
Qed.

Lemma Mask_Size_32 (m : IPMask) (ones : Z) :
  Mask_Size m = (ones, 32) -> 0 <= ones <= 32.
Proof.
  unfold Mask_Size, simpleMaskLength.
  destruct (simpleMaskLength_from_bound m 0) as [E | E].
  - rewrite E. simpl. discriminate.
  - destruct (Z.eqb_spec (simpleMaskLength_from m 0) (-1)); [discriminate |].
    intros [= <- EL]. lia.
Qed.

(** A successful [getLength] gives one of the sides 1, 2, 4, ..., 65536. *)
Lemma getLength_pow2 (cv : float -> Z) (n : IPNet) (l : Z) :
  getLength cv n = (l, None) -> exists k, (k <= 16)%nat /\ l = pow2 k.
Proof.
  unfold getLength.
  destruct (Mask_Size (IPNet_Mask n)) as [p bits] eqn:EM.
  destruct (Z.eqb_spec bits 32) as [-> | _]; [| discriminate].
  apply Mask_Size_32 in EM. cbn [negb].
  destruct p as [|p|p]; [| | lia].
  - intros E. vm_compute in E. injection E as <-. exists 16%nat. split; [lia | reflexivity].
  - prefix_cases p;
      intros E; vm_compute in E; try discriminate E; injection E as <-;
      first [ exists 0%nat; split; [lia | reflexivity]
            | exists 1%nat; split; [lia | reflexivity]
            | exists 2%nat; split; [lia | reflexivity]
            | exists 3%nat; split; [lia | reflexivity]
            | exists 4%nat; split; [lia | reflexivity]
            | exists 5%nat; split; [lia | reflexivity]
            | exists 6%nat; split; [lia | reflexivity]
            | exists 7%nat; split; [lia | reflexivity]
            | exists 8%nat; split; [lia | reflexivity]
            | exists 9%nat; split; [lia | reflexivity]
            | exists 10%nat; split; [lia | reflexivity]
            | exists 11%nat; split; [lia | reflexivity]
            | exists 12%nat; split; [lia | reflexivity]
            | exists 13%nat; split; [lia | reflexivity]
            | exists 14%nat; split; [lia | reflexivity]
            | exists 15%nat; split; [lia | reflexivity] ].
Qed.

(** X4. Whatever the mask, a [getLength] that reports no error returns a
    power of two between 1 and 65536, and one that reports an error
    returns 0. *)
Theorem getLength_side_or_zero (cv : float -> Z) (n : IPNet) :
  (exists k, (k <= 16)%nat /\ getLength cv n = (2 ^ Z.of_nat k, None))
  \/ (exists e, getLength cv n = (0, Some e)).
Proof.
  destruct (getLength cv n) as [l [e|]] eqn:E.
  - right. exists e. pose proof (getLength_error cv n e) as H0.
    rewrite E in H0. simpl in H0. rewrite H0 by reflexivity. reflexivity.
  - left. destruct (getLength_pow2 cv n l E) as (k & Hk & ->).
    exists k. split; [exact Hk | reflexivity].
Qed.

(** ** The canvas *)

Lemma SetRGBA_square (l : Z) (c : Canvas) (x y : Z) (col : RGBA) :
  square l c -> square l (SetRGBA c x y col).
Proof.
  intros (HW & HH & HL). unfold SetRGBA.
  destruct (_ && _); [| repeat split; assumption].
  repeat split; cbn [Width Height Pix]; try assumption.
  rewrite length_insert. exact HL.
Qed.

Lemma RGBAAt_square (l : Z) (c : Canvas) (x y : Z) :
  square l c -> 0 <= x < l -> 0 <= y < l ->
  RGBAAt c x y = Pix c !! Z.to_nat (y * l + x)
  /\ (Z.to_nat (y * l + x) < length (Pix c))%nat.
Proof.
  intros (HW & HH & HL) Hx Hy. unfold RGBAAt. rewrite HW, HH.
  destruct (Z.leb_spec 0 x); [| lia].
  destruct (Z.ltb_spec x l); [| lia].
  destruct (Z.leb_spec 0 y); [| lia].
  destruct (Z.ltb_spec y l); [| lia].
  split; [reflexivity |]. rewrite HL. nia.
Qed.

Lemma RGBAAt_SetRGBA_eq (l : Z) (c : Canvas) (x y : Z) (col : RGBA) :
  square l c -> 0 <= x < l -> 0 <= y < l ->
  RGBAAt (SetRGBA c x y col) x y = Some col.
Proof.
  intros Hsq Hx Hy.
  destruct (RGBAAt_square l _ x y (SetRGBA_square l c x y col Hsq) Hx Hy) as [-> Hlt].
  destruct Hsq as (HW & HH & HL).
  unfold SetRGBA in *. rewrite HW, HH in *.
  destruct (Z.leb_spec 0 x); [| lia].
  destruct (Z.ltb_spec x l); [| lia].
  destruct (Z.leb_spec 0 y); [| lia].
  destruct (Z.ltb_spec y l); [| lia].
  cbn [andb Pix] in *. rewrite length_insert in Hlt.
  apply list_lookup_insert_eq. exact Hlt.
Qed.

Lemma RGBAAt_SetRGBA_ne (c : Canvas) (x y x' y' : Z) (col : RGBA) :
  (x', y') <> (x, y) ->
  RGBAAt (SetRGBA c x y col) x' y' = RGBAAt c x' y'.
Proof.
  intros Hne. unfold SetRGBA.
  destruct ((0 <=? x) && (x <? Width c) && (0 <=? y) && (y <? Height c)) eqn:Ein;
    [| reflexivity].
  unfold RGBAAt. cbn [Width Height Pix].
  destruct ((0 <=? x') && (x' <? Width c) && (0 <=? y') && (y' <? Height c)) eqn:Eq;
    [| reflexivity].
  apply list_lookup_insert_ne.
  repeat (apply andb_true_iff in Ein as [Ein ?]).
  repeat (apply andb_true_iff in Eq as [Eq ?]).
  intros E. apply Hne.
  assert (E' : y * Width c + x = y' * Width c + x') by nia.
  destruct (Z.eq_dec y y') as [-> | Hy].
  - f_equal. lia.
  - exfalso. nia.
Qed.

Lemma startCanvas_square (t : bool) (l : Z) : square l (startCanvas t l).
Proof.
  unfold startCanvas, square.
  destruct t; cbn [negb fill NewRGBA Width Height Pix];
    repeat split; rewrite ?length_fmap, length_replicate; reflexivity.
Qed.

Lemma startCanvas_pixels (t : bool) (l : Z) :
  Forall (fun p => p = background t) (Pix (startCanvas t l)).
Proof.
  unfold startCanvas, background.
  destruct t; cbn [negb fill NewRGBA Pix].
  - apply Forall_replicate. reflexivity.
  - apply Forall_fmap. apply Forall_forall. intros; reflexivity.
Qed.

(** ** The painting loop *)

Lemma paintHost_cases (cv : float -> Z) hil s st max c (h : Host) c' :
  paintHost cv hil s st max c h = Val c' ->
  exists a, IPv4ToInt (Host_IP h) = Val a
  /\ ((exists err, hilbert.Map hil (uint32 (a - s)) = inr err /\ c' = c)
      \/ (exists x y lvl, hilbert.Map hil (uint32 (a - s)) = inl (x, y)
                           /\ level st max h = Val lvl
                           /\ c' = SetRGBA c x y (getColor cv lvl))).
Proof.
  unfold paintHost.
  destruct (IPv4ToInt (Host_IP h)) as [a | p]; simpl; [| discriminate].
  intros E. exists a. split; [reflexivity |].
  destruct (hilbert.Map hil (uint32 (a - s))) as [[x y] | err].
  - right. destruct (level st max h) as [lvl | p]; simpl in E; [| discriminate].
    injection E as <-. exists x, y, lvl. repeat split.
  - left. injection E as <-. exists err. split; reflexivity.
Qed.

(** A property of canvases that every [SetRGBA] with a colour of
    [getColor] keeps is kept by the loop. *)
Lemma paint_invariant (P : Canvas -> Prop) (cv : float -> Z) hil s st max :
  (forall c x y lvl, P c -> P (SetRGBA c x y (getColor cv lvl))) ->
  forall (hosts : list Host) c c',
    P c -> paint cv hil s st max hosts c = Val c' -> P c'.
Proof.
  intros Hstep hosts. induction hosts as [|h hosts IH]; intros c c' HP; simpl.
  - intros [= <-]. exact HP.
  - destruct (paintHost cv hil s st max c h) as [c1 | p] eqn:E1; simpl; [| discriminate].
    apply IH.
    apply paintHost_cases in E1 as (a & _ & [(err & _ & ->) | (x & y & lvl & _ & _ & ->)]).
    + exact HP.
    + apply Hstep. exact HP.
Qed.

Lemma paint_total (cv : float -> Z) hil s st max (hosts : list Host) c :
  max <> 0 -> Forall (fun h => To4 (Host_IP h) <> []) hosts ->
  exists c', paint cv hil s st max hosts c = Val c'.
Proof.
  intros Hmax HF. revert c.
  induction HF as [|h hosts Hh HF IH]; intros c; simpl; [eauto |].
  destruct (IPv4ToInt_Val _ Hh) as (a & Ea & _).
  unfold paintHost at 1. rewrite Ea. simpl.
  destruct (hilbert.Map hil (uint32 (a - s))) as [[x y] | err]; simpl.
  - unfold level. destruct (Z.eqb_spec max 0); [contradiction |]. simpl. apply IH.
  - apply IH.
Qed.

(** Hosts that are not mapped to (x, y) leave the pixel at (x, y) alone. *)
Lemma paint_frame (cv : float -> Z) hil s st max (x y : Z) (hosts : list Host) :
  Forall (fun h => forall a, IPv4ToInt (Host_IP h) = Val a ->
                             hilbert.Map hil (uint32 (a - s)) <> inl (x, y)) hosts ->
  forall c c', paint cv hil s st max hosts c = Val c' ->
               RGBAAt c' x y = RGBAAt c x y.
Proof.
  induction 1 as [|h hosts Hh HF IH]; intros c c'; simpl.
  - intros [= <-]. reflexivity.
  - destruct (paintHost cv hil s st max c h) as [c1 | p] eqn:E1; simpl; [| discriminate].
    intros E. rewrite (IH _ _ E).
    apply paintHost_cases in E1
      as (a & Ea & [(err & _ & ->) | (x1 & y1 & lvl & Em & _ & ->)]);
      [reflexivity |].
    apply RGBAAt_SetRGBA_ne. intros [= -> ->]. apply (Hh a Ea). exact Em.
Qed.

(** ** Offsets and pixels *)

Lemma Map_inj_pow2 (k : nat) (t u : Z) (p : Z * Z) :
  hilbert.Map (hilbert.mkSpace (pow2 k)) t = inl p ->
  hilbert.Map (hilbert.mkSpace (pow2 k)) u = inl p -> t = u.
Proof.
  intros Et Eu.
  pose proof (Map_in_range _ _ _ Et) as Ht.
  pose proof (Map_in_range _ _ _ Eu) as Hu.
  cbn [hilbert.N] in Ht, Hu.
  rewrite Map_pow2 in Et, Eu by assumption.
  rewrite <- Eu in Et. injection Et as Et.
  rewrite pow2_sq in Ht, Hu.
  apply (walk_inj k 0 t 0 0 u 0 0) in Et as (E & _ & _); try assumption;
    unfold pow2; simpl; lia.
Qed.

Lemma Map_range_pow2 (k : nat) (t x y : Z) :
  hilbert.Map (hilbert.mkSpace (pow2 k)) t = inl (x, y) ->
  0 <= x < pow2 k /\ 0 <= y < pow2 k.
Proof.
  intros Et. pose proof (Map_in_range _ _ _ Et) as Ht. cbn [hilbert.N] in Ht.
  rewrite Map_pow2 in Et by assumption. injection Et as Et.
  apply (walk_range k 0 t 0 0 x y) in Et; [exact Et | |]; unfold pow2; simpl; lia.
Qed.

Lemma uint32_sub_inj (a a' s : Z) :
  0 <= a < 2 ^ 32 -> 0 <= a' < 2 ^ 32 ->
  uint32 (a - s) = uint32 (a' - s) -> a = a'.
Proof.
  unfold uint32. change (2 ^ 32) with 4294967296. intros Ha Ha' E.
  pose proof (Z.div_mod (a - s) 4294967296 ltac:(lia)) as D1.
  pose proof (Z.div_mod (a' - s) 4294967296 ltac:(lia)) as D2.
  rewrite E in D1. lia.
Qed.

(** Two addresses that are mapped to the same pixel are the same address. *)
Lemma same_pixel_same_address (k : nat) (s a a' : Z) (p : Z * Z) :
  0 <= a < 2 ^ 32 -> 0 <= a' < 2 ^ 32 ->
  hilbert.Map (hilbert.mkSpace (pow2 k)) (uint32 (a - s)) = inl p ->
  hilbert.Map (hilbert.mkSpace (pow2 k)) (uint32 (a' - s)) = inl p ->
  a = a'.
Proof.
  intros Ha Ha' E E'.
  apply (uint32_sub_inj a a' s Ha Ha').
  apply (Map_inj_pow2 k _ _ p E E').
Qed.

Lemma other_addresses_other_pixels (k : nat) (s a : Z) (x y : Z) (hosts : list Host) :
  0 <= a < 2 ^ 32 ->
  hilbert.Map (hilbert.mkSpace (pow2 k)) (uint32 (a - s)) = inl (x, y) ->
  Forall (fun h => IPv4ToInt (Host_IP h) <> Val a) hosts ->
  Forall (fun h => forall a', IPv4ToInt (Host_IP h) = Val a' ->
                hilbert.Map (hilbert.mkSpace (pow2 k)) (uint32 (a' - s)) <> inl (x, y))
         hosts.
Proof.
  intros Ha Em HF. eapply Forall_impl; [exact HF |].
  intros h Hh a' Ea' Em'. apply Hh. rewrite Ea'. f_equal.
  apply (same_pixel_same_address k s a' a (x, y)); try assumption.
  apply (IPv4ToInt_range _ _ Ea').
Qed.

Lemma renderImage_unfold (cv : float -> Z) (n : IPNet) (t : bool) (st : ScanType)
    (hosts : list Host) (l s : Z) :
  getLength cv n = (l, None) -> IPv4ToInt (IPNet_IP n) = Val s ->
  renderImage cv n t st hosts
  = (c ← paint cv (hilbert.mkSpace l) s st (maxMetric st hosts) hosts (startCanvas t l);
     Val (inl c)).
Proof.
  intros EL Es. destruct (getLength_pow2 cv n l EL) as (k & _ & ->).
  unfold renderImage. rewrite EL, New_pow2, Es. reflexivity.
Qed.

(** ** renderImage *)

Lemma renderImage_error_of_getLength (cv : float -> Z) (n : IPNet)
    (t : bool) (st : ScanType) (hosts : list Host) :
  snd (getLength cv n) <> None ->
  exists e, renderImage cv n t st hosts = Val (inr e).
Proof.
  intros HN. destruct (snd (getLength cv n)) as [e|] eqn:Ee; [| contradiction].
  pose proof (getLength_error cv n e Ee) as H0.
  unfold renderImage. destruct (getLength cv n) as [l o]. simpl in H0. subst l.
  eexists. reflexivity.
Qed.

(** X5. [renderImage] returns an error exactly when [getLength] reports
    one: once the side is found, the curve is always built, and the run
    ends with a canvas or with a panic. *)
Theorem renderImage_fails_iff_getLength_fails (cv : float -> Z) (n : IPNet)
    (t : bool) (st : ScanType) (hosts : list Host) :
  (exists e, renderImage cv n t st hosts = Val (inr e))
  <-> snd (getLength cv n) <> None.
Proof.
  split.
  - intros [e E] HN.
    destruct (getLength cv n) as [l o] eqn:EL. simpl in HN. subst o.
    destruct (IPv4ToInt (IPNet_IP n)) as [s | p] eqn:Es.
    + rewrite (renderImage_unfold cv n t st hosts l s EL Es) in E.
      destruct (paint cv _ s st _ hosts _); discriminate E.
    + destruct (getLength_pow2 cv n l EL) as (k & _ & ->).
      unfold renderImage in E. rewrite EL, New_pow2, Es in E. discriminate E.
  - apply renderImage_error_of_getLength.
Qed.

(** X6. On a network [getLength] accepts, with an IPv4 base address,
    hosts that all have an IPv4 address and a maximum metric that is not
    zero, [renderImage] neither fails nor panics, and the canvas it
    returns is [side] x [side] with [side * side] pixels. *)
Theorem renderImage_completes (cv : float -> Z) (n : IPNet) (t : bool)
    (st : ScanType) (hosts : list Host) (l : Z) :
  getLength cv n = (l, None) ->
  To4 (IPNet_IP n) <> [] ->
  Forall (fun h => To4 (Host_IP h) <> []) hosts ->
  maxMetric st hosts <> 0 ->
  exists canvas, renderImage cv n t st hosts = Val (inl canvas) /\ square l canvas.
Proof.
  intros EL Hn HF Hmax.
  destruct (IPv4ToInt_Val _ Hn) as (s & Es & _).
  rewrite (renderImage_unfold cv n t st hosts l s EL Es).
  destruct (paint_total cv (hilbert.mkSpace l) s st _ hosts (startCanvas t l) Hmax HF)
    as [c Ec].
  rewrite Ec. exists c. split; [reflexivity |].
  apply (paint_invariant (square l) cv _ s st _ (fun c x y lvl => SetRGBA_square l c x y _)
           hosts _ _ (startCanvas_square t l) Ec).
Qed.

Lemma renderImage_completes_witness :
  exists canvas,
    renderImage cvttsd2sq (mkIPNet [10; 0; 0; 0] [255; 255; 255; 0]) false ScanHostUp
                [mkHost [10; 0; 0; 1] 10 []; mkHost [10; 0; 0; 2] 40 []]
    = Val (inl canvas)
    /\ square 16 canvas.
Proof.
  apply (renderImage_completes cvttsd2sq (mkIPNet [10; 0; 0; 0] [255; 255; 255; 0])
           false ScanHostUp [mkHost [10; 0; 0; 1] 10 []; mkHost [10; 0; 0; 2] 40 []] 16).
  - vm_compute. reflexivity.
  - discriminate.
  - repeat constructor; discriminate.
  - discriminate.
Defined.

(** X7. Every canvas [renderImage] returns is a square of the side of
    [getLength]; without transparency every pixel of it is opaque, with
    transparency every pixel is opaque or still the zero colour. *)
Theorem renderImage_canvas_opaque (cv : float -> Z) (n : IPNet) (t : bool)
    (st : ScanType) (hosts : list Host) (canvas : Canvas) :
  renderImage cv n t st hosts = Val (inl canvas) ->
  square (fst (getLength cv n)) canvas
  /\ Forall (fun p => A p = 255 \/ (t = true /\ p = mkRGBA 0 0 0 0)) (Pix canvas).
Proof.
  intros E.
  destruct (getLength cv n) as [l [e|]] eqn:EL.
  { exfalso.
    assert (HE : exists e', renderImage cv n t st hosts = Val (inr e')).
    { apply renderImage_error_of_getLength. rewrite EL. discriminate. }
    destruct HE as [e' HE]. rewrite HE in E. discriminate E. }
  destruct (IPv4ToInt (IPNet_IP n)) as [s | p] eqn:Es.
  2:{ destruct (getLength_pow2 cv n l EL) as (k & _ & ->).
      unfold renderImage in E. rewrite EL, New_pow2, Es in E. discriminate E. }
  rewrite (renderImage_unfold cv n t st hosts l s EL Es) in E.
  destruct (paint cv (hilbert.mkSpace l) s st (maxMetric st hosts) hosts (startCanvas t l))
    as [c | p] eqn:Ec; [| discriminate E].
  injection E as <-. cbn [fst]. split.
  - apply (paint_invariant (square l) cv _ s st _ (fun c x y lvl => SetRGBA_square l c x y _)
             hosts _ _ (startCanvas_square t l) Ec).
  - apply (paint_invariant
             (fun c => Forall (fun p => A p = 255 \/ (t = true /\ p = mkRGBA 0 0 0 0)) (Pix c))
             cv (hilbert.mkSpace l) s st (maxMetric st hosts))
      with (hosts := hosts) (c := startCanvas t l); [| | exact Ec].
    + intros c0 x y lvl HP. unfold SetRGBA.
      destruct (_ && _); [| exact HP].
      cbn [Pix]. apply Forall_insert; [exact HP |].
      left. apply getColor_alpha.
    + eapply Forall_impl; [apply startCanvas_pixels |].
      intros p ->. unfold background. destruct t; [right | left]; repeat split.
Qed.

Lemma renderImage_canvas_opaque_witness :
  square (fst (getLength cvttsd2sq (mkIPNet [10; 0; 0; 0] [255; 255; 255; 252])))
         (mkCanvas 2 2 [mkRGBA 0 0 0 255; mkRGBA 0 0 0 255;
                        mkRGBA 0 253 255 255; mkRGBA 255 255 255 255])
  /\ Forall (fun p => A p = 255 \/ (false = true /\ p = mkRGBA 0 0 0 0))
            (Pix (mkCanvas 2 2 [mkRGBA 0 0 0 255; mkRGBA 0 0 0 255;
                                mkRGBA 0 253 255 255; mkRGBA 255 255 255 255])).
Proof.
  apply (renderImage_canvas_opaque cvttsd2sq
           (mkIPNet [10; 0; 0; 0] [255; 255; 255; 252]) false ScanHostUp
           [mkHost [10; 0; 0; 1] 10 []; mkHost [10; 0; 0; 2] 40 []]).
  vm_compute. reflexivity.
Defined.

(** X8. The last host of the list with a given address decides the
    pixel of that address: when the run completes, the pixel the address
    is mapped to holds the colour of that host's level, whatever hosts
    come before it. *)
Theorem renderImage_last_write_wins (cv : float -> Z) (n : IPNet) (t : bool)
    (st : ScanType) (l s : Z) (hs1 hs2 : list Host) (h : Host) (a x y : Z) :
  getLength cv n = (l, None) ->
  IPv4ToInt (IPNet_IP n) = Val s ->
  Forall (fun h' => To4 (Host_IP h') <> []) (hs1 ++ h :: hs2) ->
  maxMetric st (hs1 ++ h :: hs2) <> 0 ->
  IPv4ToInt (Host_IP h) = Val a ->
  hilbert.Map (hilbert.mkSpace l) (uint32 (a - s)) = inl (x, y) ->
  Forall (fun h' => IPv4ToInt (Host_IP h') <> Val a) hs2 ->
  exists canvas lvl,
    renderImage cv n t st (hs1 ++ h :: hs2) = Val (inl canvas)
    /\ level st (maxMetric st (hs1 ++ h :: hs2)) h = Val lvl
    /\ RGBAAt canvas x y = Some (getColor cv lvl).
Proof.
  intros EL Es HF Hmax Ea Em Hlater.
  destruct (getLength_pow2 cv n l EL) as (k & _ & ->).
  rewrite (renderImage_unfold cv n t st _ _ s EL Es).
  set (max := maxMetric st (hs1 ++ h :: hs2)) in *.
  apply Forall_app in HF as [HF1 HF2]. apply Forall_cons in HF2 as [_ HF2].
  rewrite paint_app.
  destruct (paint_total cv (hilbert.mkSpace (pow2 k)) s st max hs1
              (startCanvas t (pow2 k)) Hmax HF1) as [c1 E1].
  rewrite E1. cbn [mbind exec_bind paint].
  assert (El : exists lvl, level st max h = Val lvl).
  { unfold level. destruct (Z.eqb_spec max 0); [contradiction | eauto]. }
  destruct El as [lvl El].
  assert (E2 : paintHost cv (hilbert.mkSpace (pow2 k)) s st max c1 h
               = Val (SetRGBA c1 x y (getColor cv lvl))).
  { unfold paintHost. rewrite Ea. simpl. rewrite Em, El. reflexivity. }
  rewrite E2. cbn [mbind exec_bind].
  destruct (paint_total cv (hilbert.mkSpace (pow2 k)) s st max hs2
              (SetRGBA c1 x y (getColor cv lvl)) Hmax HF2) as [c3 E3].
  rewrite E3. exists c3, lvl. split; [reflexivity | split; [exact El |]].
  rewrite (paint_frame cv _ s st max x y hs2
             (other_addresses_other_pixels k s a x y hs2 (IPv4ToInt_range _ _ Ea) Em Hlater)
             _ _ E3).
  destruct (Map_range_pow2 k _ x y Em) as [Hx Hy].
  apply (RGBAAt_SetRGBA_eq (pow2 k)); try assumption.
  apply (paint_invariant (square (pow2 k)) cv _ s st max
           (fun c x y lvl => SetRGBA_square (pow2 k) c x y _)
           hs1 _ _ (startCanvas_square t (pow2 k)) E1).
Qed.

Lemma renderImage_last_write_wins_witness :
  exists canvas lvl,
    renderImage cvttsd2sq (mkIPNet [10; 0; 0; 0] [255; 255; 255; 252]) false ScanHostUp
                ([mkHost [10; 0; 0; 1] 10 []] ++ mkHost [10; 0; 0; 1] 40 [] :: [])
    = Val (inl canvas)
    /\ level ScanHostUp
             (maxMetric ScanHostUp
                ([mkHost [10; 0; 0; 1] 10 []] ++ mkHost [10; 0; 0; 1] 40 [] :: []))
             (mkHost [10; 0; 0; 1] 40 [])
       = Val lvl
    /\ RGBAAt canvas 0 1 = Some (getColor cvttsd2sq lvl).
Proof.
  apply (renderImage_last_write_wins cvttsd2sq
           (mkIPNet [10; 0; 0; 0] [255; 255; 255; 252]) false ScanHostUp
           2 167772160 [mkHost [10; 0; 0; 1] 10 []] [] (mkHost [10; 0; 0; 1] 40 [])
           167772161 0 1).
  - vm_compute. reflexivity.
  - reflexivity.
  - repeat constructor; discriminate.
  - discriminate.
  - reflexivity.
  - reflexivity.
  - constructor.
Defined.

(** X9. An address of the network that no host of the list has keeps
    the background at its pixel: opaque black, or the zero colour for a
    transparent image. *)
Theorem renderImage_background (cv : float -> Z) (n : IPNet) (t : bool)
    (st : ScanType) (hosts : list Host) (l s a0 x y : Z) (canvas : Canvas) :
  getLength cv n = (l, None) ->
  IPv4ToInt (IPNet_IP n) = Val s ->
  0 <= a0 < 2 ^ 32 ->
  hilbert.Map (hilbert.mkSpace l) (uint32 (a0 - s)) = inl (x, y) ->
  Forall (fun h => IPv4ToInt (Host_IP h) <> Val a0) hosts ->
  renderImage cv n t st hosts = Val (inl canvas) ->
  RGBAAt canvas x y = Some (background t).
Proof.
  intros EL Es Ha Em HF E.
  destruct (getLength_pow2 cv n l EL) as (k & _ & ->).
  rewrite (renderImage_unfold cv n t st _ _ s EL Es) in E.
  destruct (paint cv (hilbert.mkSpace (pow2 k)) s st (maxMetric st hosts) hosts
              (startCanvas t (pow2 k))) as [c | p] eqn:Ec; [| discriminate E].
  injection E as <-.
  rewrite (paint_frame cv _ s st _ x y hosts
             (other_addresses_other_pixels k s a0 x y hosts Ha Em HF) _ _ Ec).
  destruct (Map_range_pow2 k _ x y Em) as [Hx Hy].
  destruct (RGBAAt_square (pow2 k) _ x y (startCanvas_square t (pow2 k)) Hx Hy)
    as [-> Hlt].
  destruct (lookup_lt_is_Some_2 _ _ Hlt) as [p Hp].
  rewrite Hp. f_equal.
  apply (Forall_lookup_1 _ _ _ _ (startCanvas_pixels t (pow2 k)) Hp).
Qed.

Lemma renderImage_background_witness :
  RGBAAt (mkCanvas 2 2 [mkRGBA 0 0 0 255; mkRGBA 0 0 0 255;
                        mkRGBA 0 253 255 255; mkRGBA 255 255 255 255]) 1 0
  = Some (background false).
Proof.
  apply (renderImage_background cvttsd2sq
           (mkIPNet [10; 0; 0; 0] [255; 255; 255; 252]) false ScanHostUp
           [mkHost [10; 0; 0; 1] 10 []; mkHost [10; 0; 0; 2] 40 []]
           2 167772160 167772163 1 0).
  - vm_compute. reflexivity.
  - reflexivity.
  - lia.
  - reflexivity.
  - repeat constructor; discriminate.
  - vm_compute. reflexivity.
Defined.

(** ** Levels *)

Lemma level_exact (st : ScanType) (max : Z) (h : Host) :
  0 <= metric st h <= max -> 0 < max -> max * MaxUint16 < 2 ^ 63 ->
  level st max h = Val (metric st h * MaxUint16 / max)
  /\ 0 <= metric st h * MaxUint16 / max <= MaxUint16.
Proof.
  unfold MaxUint16. intros Hm Hpos Hfit.
  change (2 ^ 63) with 9223372036854775808 in Hfit.
  assert (Hq : 0 <= metric st h * 65535 / max <= 65535).
  { split; [apply Z.div_pos; lia |].
    apply Z.div_le_upper_bound; [lia |]. nia. }
  split; [| exact Hq].
  unfold level, MaxUint16. destruct (Z.eqb_spec max 0); [lia |].
  assert (E1 : int64 (metric st h * 65535) = metric st h * 65535).
  { unfold int64. change (2 ^ 63) with 9223372036854775808.
    change (2 ^ 64) with 18446744073709551616. rewrite Z.mod_small; nia. }
  rewrite E1, Z.quot_div_nonneg by lia.
  assert (E2 : int64 (metric st h * 65535 / max) = metric st h * 65535 / max).
  { unfold int64. change (2 ^ 63) with 9223372036854775808.
    change (2 ^ 64) with 18446744073709551616. rewrite Z.mod_small; lia. }
  rewrite E2. unfold uint16. change (2 ^ 16) with 65536.
  rewrite Z.mod_small by lia. reflexivity.
Qed.

(** X10. For metrics between 0 and a positive maximum whose product with
    65535 fits Go's [int], the level is exactly metric * 65535 / max,
    lies between 0 and 65535, and grows with the metric. *)
Theorem level_monotone (st : ScanType) (max : Z) (h1 h2 : Host) :
  0 <= metric st h1 <= metric st h2 -> metric st h2 <= max ->
  0 < max -> max * MaxUint16 < 2 ^ 63 ->
  exists l1 l2,
    level st max h1 = Val l1 /\ level st max h2 = Val l2
    /\ l1 = metric st h1 * MaxUint16 / max
    /\ l2 = metric st h2 * MaxUint16 / max
    /\ 0 <= l1 <= l2 /\ l2 <= MaxUint16.
Proof.
  intros H12 H2 Hpos Hfit.
  destruct (level_exact st max h1) as [E1 B1]; try assumption; [lia |].
  destruct (level_exact st max h2) as [E2 B2]; try assumption; [lia |].
  exists (metric st h1 * MaxUint16 / max), (metric st h2 * MaxUint16 / max).
  repeat split; try assumption; try lia.
  apply Z.div_le_mono; [lia |]. unfold MaxUint16. lia.
Qed.

Lemma level_monotone_witness :
  exists l1 l2,
    level ScanHostUp 40 (mkHost [10; 0; 0; 1] 10 []) = Val l1
    /\ level ScanHostUp 40 (mkHost [10; 0; 0; 2] 20 []) = Val l2
    /\ l1 = metric ScanHostUp (mkHost [10; 0; 0; 1] 10 []) * MaxUint16 / 40
    /\ l2 = metric ScanHostUp (mkHost [10; 0; 0; 2] 20 []) * MaxUint16 / 40
    /\ 0 <= l1 <= l2 /\ l2 <= MaxUint16.
Proof.
  apply (level_monotone ScanHostUp 40 (mkHost [10; 0; 0; 1] 10 [])
           (mkHost [10; 0; 0; 2] 20 [])).
  - vm_compute. split; discriminate.
  - vm_compute. discriminate.
  - lia.
  - vm_compute. reflexivity.
Defined.

(** ** parseXml *)

Section ParseXmlShape.

Variable ParseIP : string -> IP.
Variable Atoi : string -> option Z.
Variable IP_text : IP -> string.

Lemma addPorts_states (xps : list xnPort) : forall open,
  Forall (fun xp => PortState xp <> []) xps ->
  addPorts open xps = Val (open ++ List.map portName (List.filter isOpen xps)).
Proof.
  induction xps as [|xp xps IH]; intros open HF; simpl.
  - rewrite app_nil_r. reflexivity.
  - apply Forall_cons in HF as [Hxp HF].
    unfold addPort, isOpen.
    destruct (PortState xp) as [|st0 sts]; [contradiction |].
    destruct (String.eqb (State st0) "open"); simpl.
    + rewrite IH by exact HF. rewrite <- app_assoc. reflexivity.
    + apply IH. exact HF.
Qed.

Lemma hostPorts_states (xpss : list xnPorts) : forall open,
  Forall (fun xps => Forall (fun xp => PortState xp <> []) (Port xps)) xpss ->
  hostPorts open xpss
  = Val (open ++ List.map portName (List.filter isOpen (List.flat_map Port xpss))).
Proof.
  induction xpss as [|xps xpss IH]; intros open HF; simpl.
  - rewrite app_nil_r. reflexivity.
  - apply Forall_cons in HF as [Hxps HF].
    rewrite addPorts_states by exact Hxps. simpl.
    rewrite IH by exact HF.
    rewrite List.filter_app, List.map_app, <- app_assoc. reflexivity.
Qed.

Lemma IP_String_not_empty (ip : IP) :
  (forall ip', ip' <> [] -> IP_text ip' <> ""%string) ->
  IP_String IP_text ip <> ""%string.
Proof.
  intros Htext. unfold IP_String.
  destruct ip as [|b ip]; simpl; [discriminate |].
  apply Htext. discriminate.
Qed.

Lemma parseHosts_shape (xhs : list xnHost) : forall hosts,
  (forall ip, ip <> [] -> IP_text ip <> ""%string) ->
  Forall (fun xh => Forall (fun xps => Forall (fun xp => PortState xp <> []) (Port xps))
                           (Ports xh)) xhs ->
  parseHosts ParseIP Atoi IP_text hosts xhs
  = Val (hosts ++ List.map (fun xh => mkHost (hostIP ParseIP (Addrs xh))
                                            (hostRTT Atoi (Times xh))
                                            (openPorts xh)) xhs).
Proof.
  induction xhs as [|xh xhs IH]; intros hosts Htext HF; simpl.
  - rewrite app_nil_r. reflexivity.
  - apply Forall_cons in HF as [Hxh HF].
    unfold parseHost. rewrite hostPorts_states by exact Hxh. simpl.
    cbn [Host_IP].
    destruct (String.eqb_spec (IP_String IP_text (hostIP ParseIP (Addrs xh))) "")
      as [E | _].
    + exfalso. exact (IP_String_not_empty _ Htext E).
    + simpl. rewrite IH by assumption. rewrite <- app_assoc. reflexivity.
Qed.

Lemma addPorts_panic_kind (xps : list xnPort) : forall open p,
  addPorts open xps = Panicked p -> p = IndexOutOfRange.
Proof.
  induction xps as [|xp xps IH]; intros open p; simpl; [discriminate |].
  unfold addPort at 1.
  destruct (PortState xp) as [|st0 sts]; simpl; [intros [= <-]; reflexivity |].
  destruct (String.eqb (State st0) "open"); simpl; apply IH.
Qed.

Lemma addPorts_stateless (xps : list xnPort) :
  Exists (fun xp => PortState xp = []) xps ->
  forall open, addPorts open xps = Panicked IndexOutOfRange.
Proof.
  induction 1 as [xp xps Hxp | xp xps _ IH]; intros open; simpl.
  - unfold addPort. rewrite Hxp. reflexivity.
  - destruct (addPort open xp) as [open' | p] eqn:E; simpl; [apply IH |].
    unfold addPort in E. destruct (PortState xp); [injection E as <-; reflexivity |].
    destruct (String.eqb _ _); discriminate E.
Qed.

Lemma hostPorts_panic_kind (xpss : list xnPorts) : forall open p,
  hostPorts open xpss = Panicked p -> p = IndexOutOfRange.
Proof.
  induction xpss as [|xps xpss IH]; intros open p; simpl; [discriminate |].
  destruct (addPorts open (Port xps)) as [open' | q] eqn:E; simpl.
  - apply IH.
  - intros [= <-]. apply (addPorts_panic_kind _ _ _ E).
Qed.

Lemma hostPorts_stateless (xpss : list xnPorts) :
  Exists (fun xps => Exists (fun xp => PortState xp = []) (Port xps)) xpss ->
  forall open, hostPorts open xpss = Panicked IndexOutOfRange.
Proof.
  induction 1 as [xps xpss Hxps | xps xpss _ IH]; intros open; simpl.
  - rewrite addPorts_stateless by exact Hxps. reflexivity.
  - destruct (addPorts open (Port xps)) as [open' | q] eqn:E; simpl; [apply IH |].
    rewrite (addPorts_panic_kind _ _ _ E). reflexivity.
Qed.

Lemma parseHost_panic_kind (hosts : list Host) (xh : xnHost) (p : panic) :
  parseHost ParseIP Atoi IP_text hosts xh = Panicked p -> p = IndexOutOfRange.
Proof.
  unfold parseHost.
  destruct (hostPorts [] (Ports xh)) as [open | q] eqn:E; simpl.
  - destruct (negb _); discriminate.
  - intros [= <-]. apply (hostPorts_panic_kind _ _ _ E).
Qed.

Lemma parseHosts_stateless (xhs : list xnHost) :
  Exists (fun xh => Exists (fun xps => Exists (fun xp => PortState xp = []) (Port xps))
                           (Ports xh)) xhs ->
  forall hosts, parseHosts ParseIP Atoi IP_text hosts xhs = Panicked IndexOutOfRange.
Proof.
  induction 1 as [xh xhs Hxh | xh xhs _ IH]; intros hosts; simpl.
  - unfold parseHost. rewrite hostPorts_stateless by exact Hxh. reflexivity.
  - destruct (parseHost ParseIP Atoi IP_text hosts xh) as [hosts' | q] eqn:E; simpl;
      [apply IH |].
    rewrite (parseHost_panic_kind _ _ _ E). reflexivity.
Qed.

Lemma fold_no_ipv4 (addrs : list xnAddr) : forall ip,
  Forall (fun xa => AddrType xa <> "ipv4"%string) addrs ->
  fold_left (fun ip xa => if String.eqb (AddrType xa) "ipv4" then ParseIP (Addr xa) else ip)
            addrs ip = ip.
Proof.
  induction addrs as [|xa addrs IH]; intros ip HF; simpl; [reflexivity |].
  apply Forall_cons in HF as [Hxa HF].
  destruct (String.eqb_spec (AddrType xa) "ipv4"); [contradiction |].
  apply IH. exact HF.
Qed.

Lemma fold_no_rtt (times : list xnTimes) : forall rtt,
  Forall (fun xt => Atoi (RTT xt) = None) times ->
  fold_left (fun rtt xt => match Atoi (RTT xt) with Some i => i | None => rtt end)
            times rtt = rtt.
Proof.
  induction times as [|xt times IH]; intros rtt HF; simpl; [reflexivity |].
  apply Forall_cons in HF as [Hxt HF]. rewrite Hxt. apply IH. exact HF.
Qed.

End ParseXmlShape.

(** X11. When every port element has a state element, and the text of a
    non-empty address is never empty (as [IP.String] has it), [parseXml]
    returns exactly one host per host element, in document order: its
    address and RTT as read from the element, its open ports those whose
    first state is "open", named protocol/id, in document order. *)
Theorem parseXml_one_host_per_element (ParseIP : string -> IP)
    (Atoi : string -> option Z) (IP_text : IP -> string) (doc : xnDoc) :
  (forall ip, ip <> [] -> IP_text ip <> ""%string) ->
  Forall (fun xh => Forall (fun xps => Forall (fun xp => PortState xp <> []) (Port xps))
                           (Ports xh)) (Hosts doc) ->
  parseXml ParseIP Atoi IP_text doc
  = Val (List.map (fun xh => mkHost (hostIP ParseIP (Addrs xh))
                                   (hostRTT Atoi (Times xh))
                                   (openPorts xh)) (Hosts doc)).
Proof.
  intros Htext HF. unfold parseXml.
  rewrite parseHosts_shape by assumption. reflexivity.
Qed.

Lemma parseXml_one_host_per_element_witness :
  parseXml (fun _ => [10; 0; 0; 1]) (fun _ => Some 1200) (fun _ => "10.0.0.1"%string)
           (mkDoc [mkXnHost [mkAddr "10.0.0.1" "ipv4"] [mkTimes "1200"]
                            [mkPorts [mkPort "tcp" "80" [mkState "open"];
                                      mkPort "tcp" "81" [mkState "closed"]]]])
  = Val (List.map (fun xh => mkHost (hostIP (fun _ => [10; 0; 0; 1]) (Addrs xh))
                                   (hostRTT (fun _ => Some 1200) (Times xh))
                                   (openPorts xh))
                  (Hosts (mkDoc [mkXnHost [mkAddr "10.0.0.1" "ipv4"] [mkTimes "1200"]
                                          [mkPorts [mkPort "tcp" "80" [mkState "open"];
                                                    mkPort "tcp" "81" [mkState "closed"]]]]))).
Proof.
  apply (parseXml_one_host_per_element (fun _ => [10; 0; 0; 1]) (fun _ => Some 1200)
           (fun _ => "10.0.0.1"%string)).
  - intros ip _. discriminate.
  - repeat constructor; discriminate.
Defined.

(** X12. A port element without a state element anywhere in the document
    makes [parseXml] panic with an index out of range: no host is
    returned. *)
Theorem parseXml_port_without_state_panics (ParseIP : string -> IP)
    (Atoi : string -> option Z) (IP_text : IP -> string) (doc : xnDoc) :
  Exists (fun xh => Exists (fun xps => Exists (fun xp => PortState xp = []) (Port xps))
                           (Ports xh)) (Hosts doc) ->
  parseXml ParseIP Atoi IP_text doc = Panicked IndexOutOfRange.
Proof.
  intros HE. unfold parseXml. apply parseHosts_stateless. exact HE.
Qed.

Lemma parseXml_port_without_state_panics_witness :
  parseXml (fun _ => [10; 0; 0; 1]) (fun _ => Some 1200) (fun _ => "10.0.0.1"%string)
           (mkDoc [mkXnHost [mkAddr "10.0.0.1" "ipv4"] []
                            [mkPorts [mkPort "tcp" "80" [mkState "open"];
                                      mkPort "tcp" "81" []]]])
  = Panicked IndexOutOfRange.
Proof.
  apply (parseXml_port_without_state_panics (fun _ => [10; 0; 0; 1])
           (fun _ => Some 1200) (fun _ => "10.0.0.1"%string)).
  apply Exists_cons_hd. apply Exists_cons_hd.
  apply Exists_cons_tl. apply Exists_cons_hd. reflexivity.
Defined.

(** X13. Of several address elements of type "ipv4" the last one gives
    the address of the host, and of several times elements the last one
    whose srtt parses gives its RTT; with no such element the address is
    nil and the RTT 0. *)
Theorem host_fields_last_wins (ParseIP : string -> IP) (Atoi : string -> option Z)
    (pre post : list xnAddr) (xa : xnAddr)
    (before after : list xnTimes) (xt : xnTimes) (i : Z) :
  AddrType xa = "ipv4"%string ->
  Forall (fun xa' => AddrType xa' <> "ipv4"%string) post ->
  Atoi (RTT xt) = Some i ->
  Forall (fun xt' => Atoi (RTT xt') = None) after ->
  hostIP ParseIP (pre ++ xa :: post) = ParseIP (Addr xa)
  /\ hostRTT Atoi (before ++ xt :: after) = i
  /\ hostIP ParseIP post = []
  /\ hostRTT Atoi after = 0.
Proof.
  intros Hxa Hpost Hxt Hafter. unfold hostIP, hostRTT.
  rewrite !fold_left_app. cbn [fold_left].
  rewrite Hxa, Hxt. cbn [String.eqb].
  repeat split;
    first [apply fold_no_ipv4; assumption | apply fold_no_rtt; assumption].
Qed.

Lemma host_fields_last_wins_witness :
  hostIP (fun a => if String.eqb a "10.0.0.2" then [10; 0; 0; 2] else [10; 0; 0; 1])
         ([mkAddr "10.0.0.1" "ipv4"] ++ mkAddr "10.0.0.2" "ipv4" :: [mkAddr "aa:bb" "mac"])
  = (fun a => if String.eqb a "10.0.0.2" then [10; 0; 0; 2] else [10; 0; 0; 1])
      (Addr (mkAddr "10.0.0.2" "ipv4"))
  /\ hostRTT (fun r => if String.eqb r "x" then None else Some 7)
             ([mkTimes "5"] ++ mkTimes "7" :: [mkTimes "x"])
     = 7
  /\ hostIP (fun a => if String.eqb a "10.0.0.2" then [10; 0; 0; 2] else [10; 0; 0; 1])
            [mkAddr "aa:bb" "mac"]
     = []
  /\ hostRTT (fun r => if String.eqb r "x" then None else Some 7) [mkTimes "x"] = 0.
Proof.
  apply (host_fields_last_wins
           (fun a => if String.eqb a "10.0.0.2" then [10; 0; 0; 2] else [10; 0; 0; 1])
           (fun r => if String.eqb r "x" then None else Some 7)
           [mkAddr "10.0.0.1" "ipv4"] [mkAddr "aa:bb" "mac"] (mkAddr "10.0.0.2" "ipv4")
           [mkTimes "5"] [mkTimes "x"] (mkTimes "7") 7).
  - reflexivity.
  - repeat constructor. discriminate.
  - reflexivity.
  - repeat constructor.
Defined.

(** ** The order of the hosts *)

Lemma Exists_or_Forall_not {X : Type} (P : X -> Prop) (l : list X) :
  (forall x, P x \/ ~ P x) -> Exists P l \/ Forall (fun x => ~ P x) l.
Proof.
  intros Hdec. induction l as [|x l IH]; [right; constructor |].
  destruct (Hdec x) as [Hx | Hx]; [left; apply Exists_cons_hd; exact Hx |].
  destruct IH as [IH | IH]; [left; apply Exists_cons_tl; exact IH |].
  right. constructor; assumption.
Qed.

Lemma mappedAt_dec (hil : hilbert.Space) (s x y : Z) (h : Host) :
  mappedAt hil s x y h \/ ~ mappedAt hil s x y h.
Proof.
  unfold mappedAt.
  destruct (IPv4ToInt (Host_IP h)) as [a | p]; [| right; intros (a & E & _); discriminate E].
  destruct (hilbert.Map hil (uint32 (a - s))) as [[x' y'] | err] eqn:Em.
  - destruct (Z.eq_dec x' x) as [-> | Hx], (Z.eq_dec y' y) as [-> | Hy].
    + left. exists a. split; [reflexivity | exact Em].
    + right. intros (a' & [= <-] & E). rewrite Em in E. congruence.
    + right. intros (a' & [= <-] & E). rewrite Em in E. congruence.
    + right. intros (a' & [= <-] & E). rewrite Em in E. congruence.
  - right. intros (a' & [= <-] & E). rewrite Em in E. discriminate E.
Qed.

Lemma mappable_dec (hil : hilbert.Space) (s : Z) (h : Host) :
  mappable hil s h \/ ~ mappable hil s h.
Proof.
  unfold mappable.
  destruct (IPv4ToInt (Host_IP h)) as [a | p];
    [| right; intros (a & xy & E & _); discriminate E].
  destruct (hilbert.Map hil (uint32 (a - s))) as [xy | err] eqn:Em.
  - left. exists a, xy. split; [reflexivity | exact Em].
  - right. intros (a' & xy & [= <-] & E). rewrite Em in E. discriminate E.
Qed.

(** The pixel of a host that no later host shares its address with. *)
Lemma paint_pixel_last (cv : float -> Z) (k : nat) s st max
    (hs1 hs2 : list Host) (h : Host) (a x y : Z) (c0 c : Canvas) :
  square (pow2 k) c0 ->
  IPv4ToInt (Host_IP h) = Val a ->
  hilbert.Map (hilbert.mkSpace (pow2 k)) (uint32 (a - s)) = inl (x, y) ->
  Forall (fun h' => IPv4ToInt (Host_IP h') <> Val a) hs2 ->
  paint cv (hilbert.mkSpace (pow2 k)) s st max (hs1 ++ h :: hs2) c0 = Val c ->
  exists lvl, level st max h = Val lvl /\ RGBAAt c x y = Some (getColor cv lvl).
Proof.
  intros Hsq Ea Em Hlater E.
  rewrite paint_app in E.
  destruct (paint cv (hilbert.mkSpace (pow2 k)) s st max hs1 c0) as [c1 | p] eqn:E1;
    [| discriminate E].
  cbn [mbind exec_bind paint] in E.
  unfold paintHost at 1 in E. rewrite Ea in E. cbn [mbind exec_bind] in E.
  rewrite Em in E.
  destruct (level st max h) as [lvl | p]; [| discriminate E].
  cbn [mbind exec_bind] in E.
  exists lvl. split; [reflexivity |].
  rewrite (paint_frame cv _ s st max x y hs2
             (other_addresses_other_pixels k s a x y hs2 (IPv4ToInt_range _ _ Ea) Em Hlater)
             _ _ E).
  destruct (Map_range_pow2 k _ x y Em) as [Hx Hy].
  apply (RGBAAt_SetRGBA_eq (pow2 k)); try assumption.
  apply (paint_invariant (square (pow2 k)) cv _ s st max
           (fun c x y lvl => SetRGBA_square (pow2 k) c x y _) hs1 _ _ Hsq E1).
Qed.

Lemma paint_skips_all (cv : float -> Z) hil s st max (hosts : list Host) c :
  Forall (fun h => To4 (Host_IP h) <> []) hosts ->
  Forall (fun h => ~ mappable hil s h) hosts ->
  paint cv hil s st max hosts c = Val c.
Proof.
  induction 1 as [|h hosts Hh _ IH]; intros HN; simpl; [reflexivity |].
  apply Forall_cons in HN as [Hn HN].
  destruct (IPv4ToInt_Val _ Hh) as (a & Ea & _).
  unfold paintHost at 1. rewrite Ea. cbn [mbind exec_bind].
  destruct (hilbert.Map hil (uint32 (a - s))) as [xy | err] eqn:Em.
  - exfalso. apply Hn. exists a, xy. split; assumption.
  - cbn [mbind exec_bind]. apply IH. exact HN.
Qed.

Lemma addresses_later (hs1 hs2 : list Host) (h : Host) (a : Z) :
  NoDup (addresses (hs1 ++ h :: hs2)) ->
  IPv4ToInt (Host_IP h) = Val a ->
  Forall (fun h' => IPv4ToInt (Host_IP h') <> Val a) hs2.
Proof.
  unfold addresses. rewrite fmap_app, fmap_cons.
  intros HND Ea. apply NoDup_app in HND as (_ & _ & HND).
  apply NoDup_cons in HND as [Hnotin _].
  apply Forall_forall. intros h' Hin E. apply Hnotin.
  rewrite Ea, <- E. apply (list_elem_of_fmap_2 (fun h => IPv4ToInt (Host_IP h))).
  exact Hin.
Qed.

Lemma maxMetric_le_perm (st : ScanType) (hosts1 hosts2 : list Host) :
  hosts1 ≡ₚ hosts2 -> maxMetric st hosts1 <= maxMetric st hosts2.
Proof.
  intros HP. unfold maxMetric.
  destruct (fold_max_attained st hosts1 0) as [E | (h & Hin & E)].
  - rewrite E. apply fold_max_ge.
  - rewrite <- E. apply fold_max_upper. rewrite <- HP. exact Hin.
Qed.

Lemma maxMetric_perm (st : ScanType) (hosts1 hosts2 : list Host) :
  hosts1 ≡ₚ hosts2 -> maxMetric st hosts1 = maxMetric st hosts2.
Proof.
  intros HP. apply Z.le_antisymm; apply maxMetric_le_perm; [exact HP | symmetry; exact HP].
Qed.

Lemma pixel_of_index (l : Z) (i : nat) :
  0 < l -> (i < Z.to_nat (l * l))%nat ->
  0 <= Z.of_nat i mod l < l /\ 0 <= Z.of_nat i / l < l
  /\ Z.to_nat (Z.of_nat i / l * l + Z.of_nat i mod l) = i.
Proof.
  intros Hl Hi.
  pose proof (Z.mod_pos_bound (Z.of_nat i) l Hl) as Hm.
  pose proof (Z.div_mod (Z.of_nat i) l ltac:(lia)) as Hd.
  split; [exact Hm | split].
  - split; [apply Z.div_pos; lia |]. apply Z.div_lt_upper_bound; [lia |]. lia.
  - replace (Z.of_nat i / l * l + Z.of_nat i mod l) with (Z.of_nat i) by lia.
    apply Nat2Z.id.
Qed.

(** With a maximum that is not zero, the pixels the loop leaves do not
    depend on the order of hosts with distinct addresses. *)
Lemma paint_perm (cv : float -> Z) (k : nat) s st max
    (hosts1 hosts2 : list Host) (c0 c1 c2 : Canvas) :
  square (pow2 k) c0 ->
  NoDup (addresses hosts1) -> hosts1 ≡ₚ hosts2 ->
  paint cv (hilbert.mkSpace (pow2 k)) s st max hosts1 c0 = Val c1 ->
  paint cv (hilbert.mkSpace (pow2 k)) s st max hosts2 c0 = Val c2 ->
  c1 = c2.
Proof.
  intros Hsq HND HP E1 E2.
  assert (HND2 : NoDup (addresses hosts2)).
  { unfold addresses in *. rewrite <- HP. exact HND. }
  pose proof (paint_invariant (square (pow2 k)) cv _ s st max
                (fun c x y lvl => SetRGBA_square (pow2 k) c x y _) hosts1 _ _ Hsq E1) as S1.
  pose proof (paint_invariant (square (pow2 k)) cv _ s st max
                (fun c x y lvl => SetRGBA_square (pow2 k) c x y _) hosts2 _ _ Hsq E2) as S2.
  assert (Hpix : forall x y, 0 <= x < pow2 k -> 0 <= y < pow2 k ->
                             RGBAAt c1 x y = RGBAAt c2 x y).
  { intros x y Hx Hy.
    destruct (Exists_or_Forall_not (mappedAt (hilbert.mkSpace (pow2 k)) s x y) hosts1
                (mappedAt_dec _ s x y)) as [HE | HF].
    - apply Exists_exists in HE as (h & Hin & a & Ea & Em).
      assert (Hin2 : h ∈ hosts2) by (rewrite <- HP; exact Hin).
      apply list_elem_of_split in Hin as (p1 & q1 & ->).
      apply list_elem_of_split in Hin2 as (p2 & q2 & ->).
      destruct (paint_pixel_last cv k s st max p1 q1 h a x y c0 c1 Hsq Ea Em
                  (addresses_later _ _ _ _ HND Ea) E1) as (lvl1 & El1 & ->).
      destruct (paint_pixel_last cv k s st max p2 q2 h a x y c0 c2 Hsq Ea Em
                  (addresses_later _ _ _ _ HND2 Ea) E2) as (lvl2 & El2 & ->).
      rewrite El1 in El2. injection El2 as ->. reflexivity.
    - assert (HF2 : Forall (fun h => ~ mappedAt (hilbert.mkSpace (pow2 k)) s x y h) hosts2)
        by (rewrite <- HP; exact HF).
      assert (Hfr : forall hosts,
                 Forall (fun h => ~ mappedAt (hilbert.mkSpace (pow2 k)) s x y h) hosts ->
                 Forall (fun h => forall a, IPv4ToInt (Host_IP h) = Val a ->
                     hilbert.Map (hilbert.mkSpace (pow2 k)) (uint32 (a - s)) <> inl (x, y))
                   hosts).
      { intros hosts H. eapply Forall_impl; [exact H |].
        intros h Hn a Ea Em. apply Hn. exists a. split; assumption. }
      rewrite (paint_frame cv _ s st max x y hosts1 (Hfr _ HF) _ _ E1).
      rewrite (paint_frame cv _ s st max x y hosts2 (Hfr _ HF2) _ _ E2).
      reflexivity. }
  destruct c1 as [w1 h1 pix1], c2 as [w2 h2 pix2].
  destruct S1 as (W1 & H1 & L1), S2 as (W2 & H2 & L2).
  cbn [Width Height Pix] in *. subst w1 h1 w2 h2. f_equal.
  apply list_eq. intros i.
  destruct (Nat.lt_ge_cases i (Z.to_nat (pow2 k * pow2 k))) as [Hi | Hi].
  - destruct (pixel_of_index (pow2 k) i (pow2_pos k) Hi) as (Hx & Hy & Ei).
    specialize (Hpix _ _ Hx Hy).
    unfold RGBAAt in Hpix. cbn [Width Height Pix] in Hpix.
    destruct (Z.leb_spec 0 (Z.of_nat i mod pow2 k)); [| lia].
    destruct (Z.ltb_spec (Z.of_nat i mod pow2 k) (pow2 k)); [| lia].
    destruct (Z.leb_spec 0 (Z.of_nat i / pow2 k)); [| lia].
    destruct (Z.ltb_spec (Z.of_nat i / pow2 k) (pow2 k)); [| lia].
    cbn [andb] in Hpix. rewrite Ei in Hpix. exact Hpix.
  - rewrite !lookup_ge_None_2 by lia. reflexivity.
Qed.

(** X15. On a network [getLength] accepts, the outcome of [renderImage]
    (canvas or panic) does not depend on the order of the hosts, when the
    hosts all have an IPv4 address and no two of them the same one. *)
Theorem renderImage_order_independent (cv : float -> Z) (n : IPNet) (t : bool)
    (st : ScanType) (hosts1 hosts2 : list Host) (l : Z) :
  getLength cv n = (l, None) ->
  Forall (fun h => To4 (Host_IP h) <> []) hosts1 ->
  NoDup (addresses hosts1) ->
  hosts1 ≡ₚ hosts2 ->
  renderImage cv n t st hosts1 = renderImage cv n t st hosts2.
Proof.
  intros EL HF HND HP.
  destruct (getLength_pow2 cv n l EL) as (k & _ & ->).
  destruct (IPv4ToInt (IPNet_IP n)) as [s | p] eqn:Es.
  2:{ unfold renderImage. rewrite EL, New_pow2, Es. reflexivity. }
  rewrite !(renderImage_unfold cv n t st _ _ s EL Es).
  rewrite <- (maxMetric_perm st hosts1 hosts2 HP).
  assert (HF2 : Forall (fun h => To4 (Host_IP h) <> []) hosts2)
    by (rewrite <- HP; exact HF).
  destruct (Z.eq_dec (maxMetric st hosts1) 0) as [E0 | Hmax].
  - rewrite E0.
    destruct (Exists_or_Forall_not (mappable (hilbert.mkSpace (pow2 k)) s) hosts1
                (mappable_dec _ s)) as [HE | HN].
    + assert (HE2 : Exists (mappable (hilbert.mkSpace (pow2 k)) s) hosts2)
        by (rewrite <- HP; exact HE).
      rewrite !paint_zero_max by assumption. reflexivity.
    + assert (HN2 : Forall (fun h => ~ mappable (hilbert.mkSpace (pow2 k)) s h) hosts2)
        by (rewrite <- HP; exact HN).
      rewrite !paint_skips_all by assumption. reflexivity.
  - destruct (paint_total cv (hilbert.mkSpace (pow2 k)) s st _ hosts1
                (startCanvas t (pow2 k)) Hmax HF) as [c1 E1].
    destruct (paint_total cv (hilbert.mkSpace (pow2 k)) s st _ hosts2
                (startCanvas t (pow2 k)) Hmax HF2) as [c2 E2].
    rewrite E1, E2.
    rewrite (paint_perm cv k s st _ hosts1 hosts2 _ c1 c2
               (startCanvas_square t (pow2 k)) HND HP E1 E2).
    reflexivity.
Qed.

Lemma renderImage_order_independent_witness :
  renderImage cvttsd2sq (mkIPNet [10; 0; 0; 0] [255; 255; 255; 252]) false ScanHostUp
              [mkHost [10; 0; 0; 1] 10 []; mkHost [10; 0; 0; 2] 40 []]
  = renderImage cvttsd2sq (mkIPNet [10; 0; 0; 0] [255; 255; 255; 252]) false ScanHostUp
                [mkHost [10; 0; 0; 2] 40 []; mkHost [10; 0; 0; 1] 10 []].
Proof.
  apply (renderImage_order_independent cvttsd2sq
           (mkIPNet [10; 0; 0; 0] [255; 255; 255; 252]) false ScanHostUp
           [mkHost [10; 0; 0; 1] 10 []; mkHost [10; 0; 0; 2] 40 []]
           [mkHost [10; 0; 0; 2] 40 []; mkHost [10; 0; 0; 1] 10 []] 2).
  - vm_compute. reflexivity.
  - repeat constructor; discriminate.
  - unfold addresses. simpl. apply NoDup_cons. split.
    + intros Hin. apply list_elem_of_singleton in Hin. discriminate Hin.
    + apply NoDup_singleton.
  - apply Permutation_swap.
Defined.

(** ** The range of the gradient *)

Lemma all_eq_from_sound (f : float -> float) (target : float) (n : nat) : forall lvl k,
  all_eq_from f target n lvl = true ->
  lvl <= k < lvl + Z.of_nat n ->
  f (float_of_Z k) = target.
Proof.
  induction n as [|n IH]; intros lvl k E Hk; [lia |].
  cbn [all_eq_from] in E. apply andb_true_iff in E as [E0 E].
  destruct (Z.eq_dec k lvl) as [-> | Hne].
  - apply FloatAxioms.Leibniz.eqb_spec. exact E0.
  - apply (IH (lvl + 1)); [exact E | lia].
Qed.

Lemma sel_ok_sound (cv : float -> Z) (sel : RGBA -> Z) (i lvl : Z) :
  sel (blend cv i lvl (stopLevel i))
  = float_to_uint8 cv (channel_float cv sel i (stopLevel i) (float_of_Z lvl)) ->
  sel_ok cv sel i = true -> 1 <= lvl <= 65534 ->
  between (sel (colors_at (Z.max 0 (i - 1)))) (sel (colors_at i))
          (sel (blend cv i lvl (stopLevel i))).
Proof.
  intros Eb Hok Hl. unfold sel_ok in Hok. unfold between. rewrite Eb.
  destruct (Z.eqb_spec (sel (colors_at (Z.max 0 (i - 1)))) (sel (colors_at i)))
    as [Epc | _].
  - apply andb_true_iff in Hok as [Hconv Hall].
    rewrite (all_eq_from_sound _ _ _ 1 lvl Hall) by lia.
    apply Z.eqb_eq in Hconv. rewrite Hconv, Epc. lia.
  - apply andb_true_iff in Hok as [Hmin Hmax].
    apply Z.eqb_eq in Hmin. apply Z.eqb_eq in Hmax. rewrite Hmin, Hmax.
    apply float_to_uint8_range.
Qed.

Lemma getColor_loop_S (cv : float -> Z) (fuel : nat) (i lvl : Z) :
  getColor_loop cv (S fuel) i lvl
  = if i <? len_colors then
      if lvl <? stopLevel i then blend cv i lvl (stopLevel i)
      else getColor_loop cv fuel (i + 1) lvl
    else colors_at (len_colors - 1).
Proof. reflexivity. Qed.

(** Below the level of the last stop the loop stops at the first stop
    [j] above the level, and the colour it returns lies between stops
    [j-1] and [j]. *)
Lemma getColor_loop_within (cv : float -> Z) (fuel : nat) : forall i lvl,
  stops_ok cv fuel i = true -> 1 <= lvl <= 65534 ->
  i < len_colors -> len_colors <= i + Z.of_nat fuel ->
  lvl < stopLevel (len_colors - 1) ->
  exists j, i <= j < len_colors /\ lvl < stopLevel j
            /\ (j = i \/ stopLevel (j - 1) <= lvl)
            /\ within (colors_at (Z.max 0 (j - 1))) (colors_at j)
                      (getColor_loop cv fuel i lvl).
Proof.
  induction fuel as [|fuel IH]; intros i lvl Hok Hl Hi Hfuel Htop.
  - simpl in Hfuel. lia.
  - rewrite getColor_loop_S. cbn [stops_ok] in Hok.
    destruct (Z.ltb_spec i len_colors); [| lia].
    apply andb_true_iff in Hok as [Hok Hrest].
    apply andb_true_iff in Hok as [Hok HA].
    apply andb_true_iff in Hok as [Hok HB].
    apply andb_true_iff in Hok as [HR HG].
    destruct (Z.ltb_spec lvl (stopLevel i)) as [Hlt | Hge].
    + exists i. split; [lia |]. split; [exact Hlt |]. split; [left; reflexivity |].
      unfold within.
      repeat split; apply sel_ok_sound; try assumption; reflexivity.
    + assert (Hi' : i + 1 < len_colors).
      { destruct (Z.eq_dec (i + 1) len_colors) as [E | NE]; [| lia].
        replace (len_colors - 1) with i in Htop by lia. lia. }
      destruct (IH (i + 1) lvl Hrest Hl Hi' ltac:(lia) Htop)
        as (j & Hj & Hlt & Hprev & Hw).
      exists j. split; [lia |]. split; [exact Hlt |]. split; [| exact Hw].
      right. destruct Hprev as [-> | Hprev]; [| exact Hprev].
      replace (i + 1 - 1) with i by lia. exact Hge.
Qed.

Lemma stops_ok_all (cv : float -> Z) : stops_ok cv (size colors) 0 = true.
Proof. vm_compute. reflexivity. Qed.

Lemma getColor_top (cv : float -> Z) (lvl : Z) :
  stopLevel (len_colors - 1) <= lvl -> getColor cv lvl = colors_at (len_colors - 1).
Proof.
  change (stopLevel (len_colors - 1)) with 56172. intros H.
  destruct (Z.le_gt_cases MaxUint16 lvl) as [H1 | H1].
  { apply getColor_high. exact H1. }
  unfold MaxUint16 in H1. unfold getColor, MaxUint16.
  destruct (Z.leb_spec lvl 0); [lia |].
  destruct (Z.geb_spec lvl 65535); [lia |].
  change (size colors) with 7%nat.
  do 7 (rewrite getColor_loop_S;
        match goal with
        | |- context [?i <? len_colors] =>
            let b := eval vm_compute in (i <? len_colors) in
            change (i <? len_colors) with b; cbv iota
        end;
        match goal with
        | |- context [lvl <? stopLevel ?i] =>
            let v := eval vm_compute in (stopLevel i) in
            change (stopLevel i) with v;
            destruct (Z.ltb_spec lvl v); [lia |]
        end).
  reflexivity.
Qed.

(** Every colour of [getColor] lies, channel by channel, between two
    neighbouring stops, which are the stops around the level when the
    level is inside the gradient. *)
Lemma getColor_within (cv : float -> Z) (lvl : Z) :
  exists j, 1 <= j <= 6
            /\ within (colors_at (j - 1)) (colors_at j) (getColor cv lvl)
            /\ (0 < lvl < stopLevel 6 -> stopLevel (j - 1) <= lvl < stopLevel j).
Proof.
  destruct (Z.le_gt_cases lvl 0) as [H0 | H0].
  { exists 1. split; [lia |]. rewrite getColor_low by exact H0.
    split; [vm_compute; intuition discriminate | lia]. }
  destruct (Z.le_gt_cases (stopLevel (len_colors - 1)) lvl) as [H1 | H1].
  { exists 6. split; [lia |]. rewrite getColor_top by exact H1.
    split; [vm_compute; intuition discriminate |].
    change (stopLevel (len_colors - 1)) with (stopLevel 6) in H1. lia. }
  assert (H1' := H1). change (stopLevel (len_colors - 1)) with 56172 in H1'.
  unfold getColor, MaxUint16.
  destruct (Z.leb_spec lvl 0); [lia |].
  destruct (Z.geb_spec lvl 65535); [lia |].
  destruct (getColor_loop_within cv (size colors) 0 lvl (stops_ok_all cv))
    as (j & Hj & Hlt & Hprev & Hw); try lia; try exact H1.
  { change len_colors with 7. lia. }
  { change len_colors with 7. change (size colors) with 7%nat. lia. }
  change len_colors with 7 in Hj.
  destruct Hprev as [-> | Hprev].
  { change (stopLevel 0) with 0 in Hlt. lia. }
  assert (Hj1 : 1 <= j).
  { destruct (Z.eq_dec j 0) as [-> | NE]; [| lia].
    change (stopLevel 0) with 0 in Hlt. lia. }
  rewrite Z.max_r in Hw by lia.
  exists j. split; [lia |]. split; [exact Hw |]. intros _. lia.
Qed.

(** C8, as amended. Levels at or below 0 get exactly the first stop
    (opaque black), levels at or above MAXVALUE exactly the last stop
    (opaque white); no colour leaves the range of the stops: whatever the
    level, every channel lies between the channels of two neighbouring
    stops, the two around the level when the level is inside the
    gradient. A mapped host whose metric is the maximum gets level
    MAXVALUE, and its pixel is set to exactly the hottest colour, when
    the maximum is positive and its product with 65535 fits Go's [int]. *)
Theorem C8_getColor_boundaries (cv : float -> Z) :
  (forall lvl, lvl <= 0 -> getColor cv lvl = mkRGBA 0 0 0 255)
  /\ (forall lvl, MaxUint16 <= lvl -> getColor cv lvl = mkRGBA 255 255 255 255)
  /\ (forall lvl, exists j,
        1 <= j <= 6
        /\ within (colors_at (j - 1)) (colors_at j) (getColor cv lvl)
        /\ (0 < lvl < stopLevel 6 -> stopLevel (j - 1) <= lvl < stopLevel j))
  /\ (forall hil s st max canvas h a x y,
        IPv4ToInt (Host_IP h) = Val a ->
        hilbert.Map hil (uint32 (a - s)) = inl (x, y) ->
        metric st h = max -> 0 < max -> max * MaxUint16 < 2 ^ 63 ->
        level st max h = Val MaxUint16
        /\ paintHost cv hil s st max canvas h
           = Val (SetRGBA canvas x y (mkRGBA 255 255 255 255))).
Proof.
  split; [| split; [| split]].
  - intros lvl Hl. rewrite getColor_low by exact Hl. apply colors_at_first.
  - intros lvl Hl. rewrite getColor_high by exact Hl. apply colors_at_last.
  - apply getColor_within.
  - intros hil s st max canvas h a x y Ea Em Hm Hpos Hfit.
    pose proof (level_of_max st max h Hm Hpos Hfit) as El.
    split; [exact El |].
    unfold paintHost. rewrite Ea. simpl. rewrite Em, El. simpl.
    rewrite getColor_high by lia. rewrite colors_at_last. reflexivity.
Qed.

(** The hottest of three hosts with RTT 10, 20 and 40 under maximum 40. *)
Lemma C8_getColor_boundaries_witness :
  level ScanHostUp 40 (mkHost [10; 0; 0; 3] 40 []) = Val MaxUint16
  /\ paintHost cvttsd2sq (hilbert.mkSpace 16) 167772160 ScanHostUp 40
               (startCanvas false 16) (mkHost [10; 0; 0; 3] 40 [])
     = Val (SetRGBA (startCanvas false 16) 0 1 (mkRGBA 255 255 255 255)).
Proof.
  apply (proj2 (proj2 (proj2 (C8_getColor_boundaries cvttsd2sq)))
           (hilbert.mkSpace 16) 167772160 ScanHostUp 40 (startCanvas false 16)
           (mkHost [10; 0; 0; 3] 40 []) 167772163 0 1).
  - reflexivity.
  - reflexivity.
  - reflexivity.
  - lia.
  - vm_compute. reflexivity.
Defined.

(** C8, as stated, fails for a maximum whose product with 65535 does not
    fit Go's [int]: the only host has RTT 2^48 + 1, which is the maximum,
    the product wraps around, the level is 0 and the host is painted
    with the coldest colour. *)
Lemma C8_metric_at_max_wraps :
  metric ScanHostUp (mkHost [10; 0; 0; 1] 281474976710657 [])
  = maxMetric ScanHostUp [mkHost [10; 0; 0; 1] 281474976710657 []]
  /\ level ScanHostUp (maxMetric ScanHostUp [mkHost [10; 0; 0; 1] 281474976710657 []])
           (mkHost [10; 0; 0; 1] 281474976710657 [])
     = Val 0
  /\ exists c,
      renderImage cvttsd2sq (mkIPNet [10; 0; 0; 0] [255; 255; 255; 0]) false ScanHostUp
                  [mkHost [10; 0; 0; 1] 281474976710657 []]
      = Val (inl c)
      /\ hilbert.Map (hilbert.mkSpace 16) (uint32 (167772161 - 167772160)) = inl (1, 0)
      /\ RGBAAt c 1 0 = Some (mkRGBA 0 0 0 255).
Proof.
  split; [reflexivity |]. split; [vm_compute; reflexivity |].
  eexists. split; [vm_compute; reflexivity |].
  split; vm_compute; reflexivity.
Qed.

(** ** The layout of the colour table *)

Lemma colors_atL_valid (layout : list (Z * RGBA)) (i : Z) :
  validLayout layout -> colors_atL layout i = colors_at i.
Proof.
  intros HV. unfold validLayout in HV. unfold colors_atL, colors_at.
  destruct (List.find (fun e => fst e =? i) layout) as [[k c] |] eqn:Ef.
  - apply List.find_some in Ef as [Hin Hk]. cbn [fst] in Hk.
    apply Z.eqb_eq in Hk. subst k.
    apply list_elem_of_In in Hin. rewrite HV in Hin.
    apply elem_of_map_to_list in Hin.
    symmetry. apply lookup_total_correct. exact Hin.
  - rewrite lookup_total_alt.
    destruct (colors !! i) as [c |] eqn:Ec; [| reflexivity].
    exfalso. apply elem_of_map_to_list in Ec. rewrite <- HV in Ec.
    apply list_elem_of_In in Ec.
    pose proof (List.find_none _ _ Ef _ Ec) as Hk. cbn [fst] in Hk.
    rewrite Z.eqb_refl in Hk. discriminate Hk.
Qed.

Lemma length_valid (layout : list (Z * RGBA)) :
  validLayout layout -> length layout = size colors.
Proof.
  intros HV. unfold validLayout in HV. rewrite HV.
  apply length_map_to_list.
Qed.

Lemma len_colorsL_valid (layout : list (Z * RGBA)) :
  validLayout layout -> len_colorsL layout = len_colors.
Proof.
  intros HV. unfold len_colorsL, len_colors. rewrite (length_valid _ HV). reflexivity.
Qed.

Lemma blendL_valid (layout : list (Z * RGBA)) (cv : float -> Z) (i lvl currV : Z) :
  validLayout layout -> blendL layout cv i lvl currV = blend cv i lvl currV.
Proof.
  intros HV. unfold blendL, blend.
  rewrite !(colors_atL_valid layout) by exact HV.
  rewrite (len_colorsL_valid layout HV). reflexivity.
Qed.

Lemma getColor_loopL_valid (layout : list (Z * RGBA)) (cv : float -> Z) (fuel : nat) :
  validLayout layout ->
  forall i lvl, getColor_loopL layout cv fuel i lvl = getColor_loop cv fuel i lvl.
Proof.
  intros HV. induction fuel as [|fuel IH]; intros i lvl; cbn [getColor_loopL getColor_loop].
  - rewrite (len_colorsL_valid layout HV). apply colors_atL_valid. exact HV.
  - rewrite (len_colorsL_valid layout HV).
    destruct (i <? len_colors); [| apply colors_atL_valid; exact HV].
    destruct (lvl <? _); [apply blendL_valid; exact HV | apply IH].
Qed.

Lemma getColorL_valid (layout : list (Z * RGBA)) (cv : float -> Z) (lvl : Z) :
  validLayout layout -> getColorL layout cv lvl = getColor cv lvl.
Proof.
  intros HV. unfold getColorL, getColor.
  rewrite (len_colorsL_valid layout HV), (length_valid layout HV).
  rewrite !(colors_atL_valid layout) by exact HV.
  rewrite (getColor_loopL_valid layout cv _ HV). reflexivity.
Qed.

Lemma paintL_valid (layout : list (Z * RGBA)) (cv : float -> Z) hil s st max
    (hosts : list Host) :
  validLayout layout ->
  forall canvas, paintL layout cv hil s st max hosts canvas
                 = paint cv hil s st max hosts canvas.
Proof.
  intros HV. induction hosts as [|h hosts IH]; intros canvas; cbn [paintL paint];
    [reflexivity |].
  assert (E : paintHostL layout cv hil s st max canvas h
              = paintHost cv hil s st max canvas h).
  { unfold paintHostL, paintHost.
    destruct (IPv4ToInt (Host_IP h)) as [a | p]; [| reflexivity].
    cbn [mbind exec_bind].
    destruct (hilbert.Map hil (uint32 (a - s))) as [[x y] | err]; [| reflexivity].
    destruct (level st max h) as [lvl | p]; [| reflexivity].
    cbn [mbind exec_bind]. rewrite (getColorL_valid layout cv lvl HV). reflexivity. }
  rewrite E. destruct (paintHost cv hil s st max canvas h) as [c | p]; [| reflexivity].
  cbn [mbind exec_bind]. apply IH.
Qed.

Lemma renderImageL_valid (layout : list (Z * RGBA)) (cv : float -> Z) (n : IPNet)
    (t : bool) (st : ScanType) (hosts : list Host) :
  validLayout layout ->
  renderImageL layout cv n t st hosts = renderImage cv n t st hosts.
Proof.
  intros HV. unfold renderImageL, renderImage.
  destruct (getLength cv n) as [l o].
  rewrite (colors_atL_valid layout 0 HV).
  destruct (hilbert.New l) as [hil | err]; [| reflexivity].
  destruct (IPv4ToInt (IPNet_IP n)) as [s | p]; [| reflexivity].
  cbn [mbind exec_bind]. rewrite (paintL_valid layout cv hil s st _ hosts HV).
  reflexivity.
Qed.

(** C9. Two runs of [renderImage] on the same network, transparency
    flag, scan type and sequence of hosts end alike, however each run
    lays out the entries of the map [colors]: the code only indexes the
    map and takes its length, it never ranges over it. When the runs
    return canvases, these have the same size and the same colour at
    every pixel. *)
Theorem C9_renderImage_deterministic (cv : float -> Z)
    (layout1 layout2 : list (Z * RGBA))
    (n : IPNet) (t : bool) (st : ScanType) (hosts : list Host) :
  validLayout layout1 -> validLayout layout2 ->
  renderImageL layout1 cv n t st hosts = renderImageL layout2 cv n t st hosts
  /\ renderImageL layout1 cv n t st hosts = renderImage cv n t st hosts
  /\ (forall c1 c2,
        renderImageL layout1 cv n t st hosts = Val (inl c1) ->
        renderImageL layout2 cv n t st hosts = Val (inl c2) ->
        Width c1 = Width c2 /\ Height c1 = Height c2
        /\ forall x y, RGBAAt c1 x y = RGBAAt c2 x y).
Proof.
  intros HV1 HV2.
  rewrite (renderImageL_valid layout1 cv n t st hosts HV1).
  rewrite (renderImageL_valid layout2 cv n t st hosts HV2).
  split; [reflexivity | split; [reflexivity |]].
  intros c1 c2 E1 E2. rewrite E1 in E2. injection E2 as ->.
  repeat split.
Qed.

Lemma C9_renderImage_deterministic_witness :
  renderImageL (map_to_list colors) cvttsd2sq
               (mkIPNet [10; 0; 0; 0] [255; 255; 255; 0]) false ScanHostUp
               [mkHost [10; 0; 0; 1] 10 []; mkHost [10; 0; 0; 2] 40 []]
  = renderImageL (reverse (map_to_list colors)) cvttsd2sq
                 (mkIPNet [10; 0; 0; 0] [255; 255; 255; 0]) false ScanHostUp
                 [mkHost [10; 0; 0; 1] 10 []; mkHost [10; 0; 0; 2] 40 []]
  /\ renderImageL (map_to_list colors) cvttsd2sq
                  (mkIPNet [10; 0; 0; 0] [255; 255; 255; 0]) false ScanHostUp
                  [mkHost [10; 0; 0; 1] 10 []; mkHost [10; 0; 0; 2] 40 []]
     = renderImage cvttsd2sq (mkIPNet [10; 0; 0; 0] [255; 255; 255; 0]) false ScanHostUp
                   [mkHost [10; 0; 0; 1] 10 []; mkHost [10; 0; 0; 2] 40 []]
  /\ (forall c1 c2,
        renderImageL (map_to_list colors) cvttsd2sq
                     (mkIPNet [10; 0; 0; 0] [255; 255; 255; 0]) false ScanHostUp
                     [mkHost [10; 0; 0; 1] 10 []; mkHost [10; 0; 0; 2] 40 []]
        = Val (inl c1) ->
        renderImageL (reverse (map_to_list colors)) cvttsd2sq
                     (mkIPNet [10; 0; 0; 0] [255; 255; 255; 0]) false ScanHostUp
                     [mkHost [10; 0; 0; 1] 10 []; mkHost [10; 0; 0; 2] 40 []]
        = Val (inl c2) ->
        Width c1 = Width c2 /\ Height c1 = Height c2
        /\ forall x y, RGBAAt c1 x y = RGBAAt c2 x y).
Proof.
  apply (C9_renderImage_deterministic cvttsd2sq
           (map_to_list colors) (reverse (map_to_list colors))
           (mkIPNet [10; 0; 0; 0] [255; 255; 255; 0]) false ScanHostUp
           [mkHost [10; 0; 0; 1] 10 []; mkHost [10; 0; 0; 2] 40 []]).
  - unfold validLayout. reflexivity.
  - unfold validLayout. apply reverse_Permutation.
Defined.
